(** * MOVA Fleet Manager portal: a shallow embedding of [src/App.tsx]

    The portal keeps three collections in React state (vehicles, policies,
    exceptions) and changes them through functional updaters.  The
    definitions below transcribe those updaters, the derived values computed
    with [useMemo], and the parsing done by the MCC allowlist field.

    Conventions.
    - A JavaScript string is the list of its UTF-16 code units ([list N]).
    - A JavaScript number is [Js.number]: NaN, an infinity, or a finite value
      kept as an exact rational.  Rounding to binary64 and the sign of zero
      are not represented: whether a text is read as NaN does not depend on
      them, and where the value of a number or its text matters the
      statements keep to the integers below 2^53, which binary64 holds
      exactly.
    - An array is a [list]; [arr.map], [arr.filter], [arr.findIndex] and
      [copy[idx] = p] are written with the list functions of the same
      meaning. *)

From Stdlib Require Import ZArith NArith QArith List Bool String Ascii Lia.
From Stdlib Require Import DecimalString DecimalPos DecimalZ.
From Stdlib Require Qcanon.
From Stdlib Require Import Lqa.
From stdpp Require Import base option list.

(* ===================================================================== *)
(** * Part I: definitions *)
(* ===================================================================== *)

(** ** JavaScript strings and numbers *)
Module Js.

(** A string is a sequence of UTF-16 code units. *)
Abbreviation JsString := (list N).

(** ASCII literals, for readability of the examples. *)
Definition lit (s : string) : JsString :=
  List.map N_of_ascii (list_ascii_of_string s).

(** [a === b] on strings. *)
Definition str_eqb (a b : JsString) : bool := bool_decide (a = b).

Inductive number : Type :=
| NaN
| Infinity (negative : bool)
| Finite (q : Q).

Definition of_Z (z : Z) : number := Finite (inject_Z z).

(** [Number.isNaN(n)] *)
Definition isNaN (n : number) : bool :=
  match n with NaN => true | _ => false end.

(** [a < b] on numbers: any comparison with NaN is false. *)
Definition lt (a b : number) : bool :=
  match a, b with
  | NaN, _ | _, NaN => false
  | Infinity true, Infinity true => false
  | Infinity true, _ => true
  | _, Infinity true => false
  | Infinity false, _ => false
  | _, Infinity false => true
  | Finite x, Finite y => negb (Qle_bool y x)
  end.

(** [a === b] on numbers: NaN differs from itself. *)
Definition num_eqb (a b : number) : bool :=
  match a, b with
  | Finite x, Finite y => Qeq_bool x y
  | Infinity s, Infinity t => Bool.eqb s t
  | _, _ => false
  end.

Definition gt (a b : number) : bool := lt b a.
Definition le (a b : number) : bool := lt a b || num_eqb a b.
Definition ge (a b : number) : bool := le b a.

Definition neg (n : number) : number :=
  match n with
  | NaN => NaN
  | Infinity s => Infinity (negb s)
  | Finite q => Finite (Qopp q)
  end.

(** *** [String.prototype.split] with a separator of one code unit *)

(** [s.split(sep)]: the pieces between the occurrences of [sep]; the empty
    string gives one empty piece. *)
Fixpoint split (sep : N) (s : JsString) : list JsString :=
  match s with
  | [] => [[]]
  | c :: s' =>
      if (c =? sep)%N then [] :: split sep s'
      else match split sep s' with
           | tok :: rest => (c :: tok) :: rest
           | [] => [[c]]
           end
  end.

(** [arr.join(sep)], used to state what [split] returns. *)
Fixpoint join (sep : N) (l : list JsString) : JsString :=
  match l with
  | [] => []
  | [tok] => tok
  | tok :: rest => tok ++ sep :: join sep rest
  end.

(** *** [String.prototype.trim] *)

(** WhiteSpace and LineTerminator code units: TAB, LF, VT, FF, CR, SP,
    NBSP, U+1680, U+2000..U+200A, U+2028, U+2029, U+202F, U+205F, U+3000,
    U+FEFF. *)
Definition isWhiteSpace (c : N) : bool :=
  existsb (N.eqb c)
    [9; 10; 11; 12; 13; 32; 160; 5760; 8232; 8233; 8239; 8287; 12288; 65279]%N
  || ((8192 <=? c) && (c <=? 8202))%N.

Fixpoint trimStart (s : JsString) : JsString :=
  match s with
  | c :: s' => if isWhiteSpace c then trimStart s' else s
  | [] => []
  end.

Definition trimEnd (s : JsString) : JsString := rev (trimStart (rev s)).

Definition trim (s : JsString) : JsString := trimEnd (trimStart s).

(** *** [Number(string)]: the StringNumericLiteral grammar *)

(** Value of a code unit as a digit of the given radix. *)
Definition digitValue (radix c : N) : option N :=
  let v :=
    if ((48 <=? c) && (c <=? 57))%N then Some (c - 48)%N
    else if ((97 <=? c) && (c <=? 102))%N then Some (c - 87)%N
    else if ((65 <=? c) && (c <=? 70))%N then Some (c - 55)%N
    else None in
  match v with
  | Some d => if (d <? radix)%N then Some d else None
  | None => None
  end.

(** The longest prefix of digits, and what follows it. *)
Fixpoint digits (radix : N) (s : JsString) : list N * JsString :=
  match s with
  | c :: s' =>
      match digitValue radix c with
      | Some d => let '(ds, r) := digits radix s' in (d :: ds, r)
      | None => ([], s)
      end
  | [] => ([], [])
  end.

Definition digitsValue (radix : N) (ds : list N) : N :=
  fold_left (fun acc d => acc * radix + d)%N ds 0%N.

(** [m * 10^e] as a reduced fraction. *)
Definition scale10 (m : N) (e : Z) : Q :=
  Qred (if (0 <=? e)%Z then inject_Z (Z.of_N m * 10 ^ e)
        else Qmake (Z.of_N m) (Z.to_pos (10 ^ (- e)))).

(** ExponentPart_opt, which must end the literal: [e] or [E], an optional
    sign, one or more digits. *)
Definition exponentPart (s : JsString) : option Z :=
  match s with
  | [] => Some 0%Z
  | c :: s' =>
      if ((c =? 101) || (c =? 69))%N then
        let '(negative, s'') :=
          match s' with
          | c' :: t =>
              if (c' =? 43)%N then (false, t)
              else if (c' =? 45)%N then (true, t)
              else (false, s')
          | [] => (false, s')
          end in
        match digits 10 s'' with
        | (d :: ds, []) =>
            let v := Z.of_N (digitsValue 10 (d :: ds)) in
            Some (if negative then (- v)%Z else v)
        | _ => None
        end
      else None
  end.

(** StrUnsignedDecimalLiteral: [Infinity], [d+.d*(e)?], [.d+(e)?],
    [d+(e)?]. *)
Definition strUnsignedDecimalLiteral (s : JsString) : number :=
  if str_eqb s (lit "Infinity") then Infinity false
  else
    let '(ip, r1) := digits 10 s in
    let '(fp, r2) :=
      match r1 with
      | c :: t => if (c =? 46)%N then digits 10 t else ([], r1)
      | [] => ([], r1)
      end in
    match ip ++ fp with
    | [] => NaN
    | ds =>
        match exponentPart r2 with
        | Some e =>
            Finite (scale10 (digitsValue 10 ds) (e - Z.of_nat (length fp)))
        | None => NaN
        end
    end.

(** StrDecimalLiteral: an optional sign before the unsigned literal. *)
Definition strDecimalLiteral (s : JsString) : number :=
  match s with
  | c :: t =>
      if (c =? 43)%N then strUnsignedDecimalLiteral t
      else if (c =? 45)%N then neg (strUnsignedDecimalLiteral t)
      else strUnsignedDecimalLiteral s
  | [] => strUnsignedDecimalLiteral s
  end.

(** NonDecimalIntegerLiteral: [0b], [0o], [0x] and their upper-case
    forms, followed by one or more digits of that radix. *)
Definition nonDecimalRadix (c : N) : option N :=
  if ((c =? 98) || (c =? 66))%N then Some 2%N
  else if ((c =? 111) || (c =? 79))%N then Some 8%N
  else if ((c =? 120) || (c =? 88))%N then Some 16%N
  else None.

Definition strNumericLiteral (s : JsString) : number :=
  match s with
  | c0 :: c :: t =>
      match (if (c0 =? 48)%N then nonDecimalRadix c else None) with
      | Some radix =>
          match digits radix t with
          | (d :: ds, []) => of_Z (Z.of_N (digitsValue radix (d :: ds)))
          | _ => NaN
          end
      | None => strDecimalLiteral s
      end
  | _ => strDecimalLiteral s
  end.

(** [Number(s)] for a string [s]: white space around the literal is
    skipped, the empty literal is 0, anything outside the grammar is NaN. *)
Definition Number (s : JsString) : number :=
  match trim s with
  | [] => of_Z 0
  | t => strNumericLiteral t
  end.

(** [String(n)] for an integer of magnitude below 2^53: binary64 holds it
    exactly and prints its decimal numeral.  Every reading of [Date.now()]
    is such an integer (at most 8.64e15 in magnitude), and this is what a
    template literal does with it. *)
Definition String_of_int (z : Z) : JsString :=
  lit (NilZero.string_of_int (Z.to_int z)).

End Js.

Import Js.

(** ** Types (lines 14-52 of [App.tsx]) *)

Module Vehicle.
Record t : Type := mk {
  id : JsString;
  plate : JsString;
  driver : JsString;
  lat : number;
  lng : number;
  spendToday : number;
  spend7d : number;
  spend30d : number
}.
End Vehicle.

Inductive Scope : Type := FuelOnly | FuelMaintenance | FuelTollsParking.

Record LatLng : Type := { lat : number; lng : number }.

Module Policy.
Record t : Type := mk {
  id : JsString;
  name : JsString;
  scope : Scope;
  dailyLimit : number;
  perTxnLimit : number;
  maxFillsPerDay : number;
  startHour : number;
  endHour : number;
  requiresMobileUnlock : bool;
  geofenceCenter : option LatLng;
  geofenceRadiusKm : option number;
  mccAllow : option (list number);
  mccBlock : option (list number)
}.

(** [{ ...p, id: i }] *)
Definition with_id (i : JsString) (p : t) : t :=
  mk i (name p) (scope p) (dailyLimit p) (perTxnLimit p) (maxFillsPerDay p)
     (startHour p) (endHour p) (requiresMobileUnlock p) (geofenceCenter p)
     (geofenceRadiusKm p) (mccAllow p) (mccBlock p).

(** [{ ...p, mccAllow: l }] *)
Definition with_mccAllow (l : list number) (p : t) : t :=
  mk (id p) (name p) (scope p) (dailyLimit p) (perTxnLimit p)
     (maxFillsPerDay p) (startHour p) (endHour p) (requiresMobileUnlock p)
     (geofenceCenter p) (geofenceRadiusKm p) (Some l) (mccBlock p).
End Policy.

(** The [status] of an exception and the [action] of a triage are unions of
    string literals; each constructor stands for the literal [str] gives. *)
Inductive Status : Type := Open | Approved | Denied.

Definition Status_str (s : Status) : JsString :=
  lit match s with
      | Open => "Open"
      | Approved => "Approved"
      | Denied => "Denied"
      end.

(** ["Approved" | "Denied"], the type of [action]. *)
Inductive Action : Type := ActApproved | ActDenied.

(** The value an [action] has when it is stored in a [status] field. *)
Definition Action_status (a : Action) : Status :=
  match a with
  | ActApproved => Approved
  | ActDenied => Denied
  end.

Inductive ExceptionType : Type :=
  OffRoute | TankOverfill | AfterHours | CardNotPresent | Velocity | MCCBlocked.

Module ExceptionItem.
Record t : Type := mk {
  id : JsString;
  time : JsString;
  vehicleId : JsString;
  plate : JsString;
  driver : JsString;
  type : ExceptionType;
  amount : number;
  location : JsString;
  reason : JsString;
  status : Status
}.

(** [{ ...e, status: s }] *)
Definition with_status (s : Status) (e : t) : t :=
  mk (id e) (time e) (vehicleId e) (plate e) (driver e) (type e) (amount e)
     (location e) (reason e) s.
End ExceptionItem.

(** ** Mock data (lines 55-88) *)

Definition mockVehicles : list Vehicle.t :=
  [ Vehicle.mk (lit "V-101") (lit "NDL 123 GP") (lit "S. Dlamini")
      (Finite (-262041 # 10000)) (Finite (280473 # 10000))
      (of_Z 950) (of_Z 5400) (of_Z 21000);
    Vehicle.mk (lit "V-102") (lit "CPT 456 WC") (lit "A. Williams")
      (Finite (-339249 # 10000)) (Finite (184241 # 10000))
      (of_Z 1200) (of_Z 7200) (of_Z 28500);
    Vehicle.mk (lit "V-103") (lit "DBN 789 KZN") (lit "K. Naidoo")
      (Finite (-298587 # 10000)) (Finite (310218 # 10000))
      (of_Z 300) (of_Z 4100) (of_Z 16000);
    Vehicle.mk (lit "V-104") (lit "PLK 908 LP") (lit "T. Mokoena")
      (Finite (-239045 # 10000)) (Finite (294689 # 10000))
      (of_Z 1800) (of_Z 9500) (of_Z 32000) ].

Definition mockPolicies : list Policy.t :=
  [ Policy.mk (lit "P-1") (lit "Driver Fuel-Only") FuelOnly
      (of_Z 2500) (of_Z 1500) (of_Z 2) (of_Z 6) (of_Z 20) true
      (Some {| lat := Finite (-262041 # 10000); lng := Finite (280473 # 10000) |})
      (Some (of_Z 10))
      (Some [of_Z 5541; of_Z 5542]) None;
    Policy.mk (lit "P-2") (lit "Maintenance & Fuel") FuelMaintenance
      (of_Z 15000) (of_Z 5000) (of_Z 6) (of_Z 5) (of_Z 22) false
      None None
      (Some [of_Z 5541; of_Z 5542; of_Z 7538; of_Z 5013]) None ].

(** The three mock exceptions; their [time] is read from the clock when the
    module loads, so the three ISO strings are parameters here. *)
Definition mockExceptions (t0 t1 t2 : JsString) : list ExceptionItem.t :=
  [ ExceptionItem.mk (lit "E-9001") t0 (lit "V-104") (lit "PLK 908 LP")
      (lit "T. Mokoena") AfterHours (of_Z 680) (lit "N1 North, Polokwane")
      (lit "Swipe at 22:37 outside allowed 06:00" ++ 8211%N :: lit "20:00 window")
      Open;
    ExceptionItem.mk (lit "E-9002") t1 (lit "V-103") (lit "DBN 789 KZN")
      (lit "K. Naidoo") OffRoute (of_Z 420) (lit "Queensburgh, Durban")
      (lit "Vehicle 8km outside geofence at time of purchase") Open;
    ExceptionItem.mk (lit "E-9003") t2 (lit "V-101") (lit "NDL 123 GP")
      (lit "S. Dlamini") MCCBlocked (of_Z 1200) (lit "Braamfontein, JHB")
      (lit "Attempted purchase at blocked MCC 5812 (Restaurants)") Open ].

(** ** Geospatial projection (lines 96-108 and 122-125) *)

(** The keys [vehiclesToGeoJSON] may index a vehicle with. *)
Inductive SpendKey : Type := KeySpendToday | KeySpend7d | KeySpend30d.

(** [v[spendKey]] *)
Definition Vehicle_get (v : Vehicle.t) (k : SpendKey) : number :=
  match k with
  | KeySpendToday => Vehicle.spendToday v
  | KeySpend7d => Vehicle.spend7d v
  | KeySpend30d => Vehicle.spend30d v
  end.

Module GeoJSON.
Record Properties : Type := {
  id : JsString;
  plate : JsString;
  driver : JsString;
  spend : number
}.
Record Geometry : Type := {
  geometry_type : JsString;
  coordinates : list number
}.
Record Feature : Type := {
  feature_type : JsString;
  properties : Properties;
  geometry : Geometry
}.
Record FeatureCollection : Type := {
  type : JsString;
  features : list Feature
}.
End GeoJSON.

Definition vehiclesToGeoJSON (vehicles : list Vehicle.t) (spendKey : SpendKey)
  : GeoJSON.FeatureCollection :=
  {| GeoJSON.type := lit "FeatureCollection";
     GeoJSON.features :=
       List.map
         (fun v =>
            {| GeoJSON.feature_type := lit "Feature";
               GeoJSON.properties :=
                 {| GeoJSON.id := Vehicle.id v;
                    GeoJSON.plate := Vehicle.plate v;
                    GeoJSON.driver := Vehicle.driver v;
                    GeoJSON.spend := Vehicle_get v spendKey |};
               GeoJSON.geometry :=
                 {| GeoJSON.geometry_type := lit "Point";
                    GeoJSON.coordinates := [Vehicle.lng v; Vehicle.lat v] |} |})
         vehicles |}.

(** ["today" | "7d" | "30d"] *)
Inductive SpendWindow : Type := Today | Days7 | Days30.

Definition SpendWindow_str (w : SpendWindow) : JsString :=
  lit match w with
      | Today => "today"
      | Days7 => "7d"
      | Days30 => "30d"
      end.

(** The [geojson] memo of [MapPanel]. *)
Definition MapPanel_geojson (vehicles : list Vehicle.t) (spendWindow : SpendWindow)
  : GeoJSON.FeatureCollection :=
  let key :=
    if str_eqb (SpendWindow_str spendWindow) (lit "today") then KeySpendToday
    else if str_eqb (SpendWindow_str spendWindow) (lit "7d") then KeySpend7d
    else KeySpend30d in
  vehiclesToGeoJSON vehicles key.

(** ** Policy editor (lines 228-255 and 358-370) *)

(** The initial draft of the editor. *)
Definition initialDraft : Policy.t :=
  Policy.mk (lit "new") (lit "New Policy") FuelOnly
    (of_Z 2500) (of_Z 1500) (of_Z 2) (of_Z 6) (of_Z 20) true
    (Some {| lat := Finite (-262041 # 10000); lng := Finite (280473 # 10000) |})
    (Some (of_Z 10))
    (Some [of_Z 5541; of_Z 5542]) None.

(** [`P-${Date.now()}`], with the clock reading [now] in milliseconds. *)
Definition mintId (now : Z) : JsString := lit "P-" ++ String_of_int now.

(** The policy [save] hands to [onSave]:
    [{ ...draft, id: draft.id === "new" ? `P-${Date.now()}` : draft.id }]. *)
Definition save (draft : Policy.t) (now : Z) : Policy.t :=
  Policy.with_id
    (if str_eqb (Policy.id draft) (lit "new") then mintId now
     else Policy.id draft)
    draft.

(** The value the MCC allowlist field computes from its text:
    [value.split(",").map((n) => Number(n.trim())).filter((n) => !Number.isNaN(n))]. *)
Definition parseMccAllow (value : JsString) : list number :=
  List.filter (fun n => negb (isNaN n))
    (List.map (fun n => Number (trim n)) (split 44 value)).

(** The [onChange] of the MCC allowlist field: [update("mccAllow", ...)]. *)
Definition onChangeMccAllow (value : JsString) (draft : Policy.t) : Policy.t :=
  Policy.with_mccAllow (parseMccAllow value) draft.

(** ** Exceptions table (lines 414-419) *)

(** ["All" | "Open" | "Approved" | "Denied"], the state of the filter. *)
Inductive StatusFilter : Type :=
  FilterAll | FilterOpen | FilterApproved | FilterDenied.

Definition StatusFilter_str (f : StatusFilter) : JsString :=
  lit match f with
      | FilterAll => "All"
      | FilterOpen => "Open"
      | FilterApproved => "Approved"
      | FilterDenied => "Denied"
      end.

(** The [filtered] memo of [ExceptionsTable]. *)
Definition filtered (exceptions : list ExceptionItem.t) (filter : StatusFilter)
  : list ExceptionItem.t :=
  List.filter
    (fun e =>
       if str_eqb (StatusFilter_str filter) (lit "All") then true
       else str_eqb (Status_str (ExceptionItem.status e)) (StatusFilter_str filter))
    exceptions.

(** ** Root component: the updaters (lines 533-547) *)

(** [arr.findIndex(f)]: the first index whose element satisfies [f], or -1. *)
Fixpoint findIndex {A : Type} (f : A -> bool) (l : list A) : Z :=
  match l with
  | [] => (-1)%Z
  | x :: l' =>
      if f x then 0%Z
      else let i := findIndex f l' in
           if (0 <=? i)%Z then (i + 1)%Z else (-1)%Z
  end.

(** The updater [handleSavePolicy] passes to [setPolicies]. *)
Definition handleSavePolicy (p : Policy.t) (prev : list Policy.t) : list Policy.t :=
  let idx := findIndex (fun x => str_eqb (Policy.id x) (Policy.id p)) prev in
  if (0 <=? idx)%Z then
    let copy := prev in
    <[Z.to_nat idx := p]> copy
  else p :: prev.

(** The updater [handleExceptionAction] passes to [setExceptions]. *)
Definition handleExceptionAction (id : JsString) (action : Action)
    (prev : list ExceptionItem.t) : list ExceptionItem.t :=
  List.map
    (fun e =>
       if str_eqb (ExceptionItem.id e) id
       then ExceptionItem.with_status (Action_status action) e
       else e)
    prev.

(** Clicking "Save Policy": [save] wired to [handleSavePolicy] (line 623). *)
Definition clickSave (draft : Policy.t) (now : Z) (prev : list Policy.t)
  : list Policy.t :=
  handleSavePolicy (save draft now) prev.

(** A run of triage clicks, applied in order. *)
Definition triageRun (clicks : list (JsString * Action))
    (prev : list ExceptionItem.t) : list ExceptionItem.t :=
  fold_left (fun st c => handleExceptionAction (fst c) (snd c) st) clicks prev.

(** ** Vocabulary of the statements *)

(** The filter state that selects one status. *)
Definition StatusFilter_of (s : Status) : StatusFilter :=
  match s with
  | Open => FilterOpen
  | Approved => FilterApproved
  | Denied => FilterDenied
  end.

(** The key the map panel picks for a spend window, read off the claim:
    today, last 7 days, last 30 days. *)
Definition spendOf (w : SpendWindow) (v : Vehicle.t) : number :=
  match w with
  | Today => Vehicle.spendToday v
  | Days7 => Vehicle.spend7d v
  | Days30 => Vehicle.spend30d v
  end.

(** The decision of the last click of a run that names [id], if any. *)
Fixpoint lastDecision (id : JsString) (clicks : list (JsString * Action))
  : option Action :=
  match clicks with
  | [] => None
  | c :: rest =>
      match lastDecision id rest with
      | Some a => Some a
      | None => if str_eqb id (fst c) then Some (snd c) else None
      end
  end.

(** The tokens of the MCC field that [Number] accepts, in order: what
    "drop every token that does not parse as a number" describes. *)
Fixpoint keepNumeric (tokens : list JsString) : list number :=
  match tokens with
  | [] => []
  | tok :: rest =>
      match Number (trim tok) with
      | NaN => keepNumeric rest
      | n => n :: keepNumeric rest
      end
  end.

(** A decimal digit, and the number a run of decimal digits writes. *)
Definition isDecimalDigit (c : N) : bool := ((48 <=? c) && (c <=? 57))%N.

Definition decimalValue (s : JsString) : N :=
  digitsValue 10 (List.map (fun c => c - 48)%N s).

(** ** Inputs used by the examples *)

Definition editedP2 : Policy.t :=
  Policy.mk (lit "P-2") (lit "Maintenance & Fuel (raised)") FuelMaintenance
    (of_Z 20000) (of_Z 5000) (of_Z 6) (of_Z 5) (of_Z 22) false
    None None (Some [of_Z 5541]) None.

Definition approvedItem : ExceptionItem.t :=
  ExceptionItem.mk (lit "E-9001") (lit "2024-01-01T22:37:00.000Z") (lit "V-104")
    (lit "PLK 908 LP") (lit "T. Mokoena") AfterHours (of_Z 680)
    (lit "N1 North, Polokwane") (lit "Swipe at 22:37") Approved.

Definition deniedItem : ExceptionItem.t :=
  ExceptionItem.mk (lit "E-9002") (lit "2024-01-01T21:37:00.000Z") (lit "V-103")
    (lit "DBN 789 KZN") (lit "K. Naidoo") OffRoute (of_Z 420)
    (lit "Queensburgh, Durban") (lit "Vehicle 8km outside geofence") Denied.

Definition openItem : ExceptionItem.t :=
  ExceptionItem.mk (lit "E-9003") (lit "2024-01-01T20:37:00.000Z") (lit "V-101")
    (lit "NDL 123 GP") (lit "S. Dlamini") MCCBlocked (of_Z 1200)
    (lit "Braamfontein, JHB") (lit "Blocked MCC 5812") Open.

Definition sampleQueue : list ExceptionItem.t :=
  [approvedItem; deniedItem; openItem].

(** ** Further parts of [App.tsx] *)

(** *** Subtraction and [Array.prototype.sort] *)

Module JsNum.
(** [a - b] on numbers. *)
Definition sub (a b : number) : number :=
  match a, b with
  | NaN, _ | _, NaN => NaN
  | Infinity s, Infinity t => if Bool.eqb s t then NaN else Infinity s
  | Infinity s, Finite _ => Infinity s
  | Finite _, Infinity t => Infinity (negb t)
  | Finite x, Finite y => Finite (x - y)
  end.
End JsNum.

Module JsArray.
(** One step of a stable insertion sort: [x], which stood before all of [l],
    goes after [y] only when [compareFn(x, y) > 0]; a NaN answer counts as 0. *)
Fixpoint insertSorted {A : Type} (compareFn : A -> A -> number) (x : A)
    (l : list A) : list A :=
  match l with
  | [] => [x]
  | y :: l' =>
      if gt (compareFn x y) (of_Z 0) then y :: insertSorted compareFn x l'
      else x :: l
  end.

(** [[...arr].sort(compareFn)]: the sort is stable, and for a comparator
    that orders the elements consistently the result does not depend on the
    engine; it is written here as an insertion sort. *)
Fixpoint sort {A : Type} (compareFn : A -> A -> number) (l : list A) : list A :=
  match l with
  | [] => []
  | x :: l' => insertSorted compareFn x (sort compareFn l')
  end.
End JsArray.

(** *** Fleet snapshot (lines 553-554 and 609) *)

(** The comparator [(a, b) => b.spendToday - a.spendToday]. *)
Definition bySpendTodayDesc (a b : Vehicle.t) : number :=
  JsNum.sub (Vehicle.spendToday b) (Vehicle.spendToday a).

(** [topSpendPlate]; the dash is U+2014.  The sorted copy of a non-empty
    array has a first element, so the inner empty case does not arise. *)
Definition topSpendPlate (vehicles : list Vehicle.t) : JsString :=
  match vehicles with
  | [] => [8212%N]
  | _ :: _ =>
      match JsArray.sort bySpendTodayDesc vehicles with
      | v :: _ => Vehicle.plate v
      | [] => []
      end
  end.

(** The "Open Exceptions" tile:
    [exceptions.filter(e => e.status === "Open").length]. *)
Definition openExceptions (exceptions : list ExceptionItem.t) : nat :=
  length
    (List.filter
       (fun e => str_eqb (Status_str (ExceptionItem.status e)) (lit "Open"))
       exceptions).

(** *** The form of the policy editor (lines 250-251 and 269-371) *)

(** [keyof Policy] *)
Inductive PolicyKey : Type :=
  KeyId | KeyName | KeyScope | KeyDailyLimit | KeyPerTxnLimit | KeyMaxFillsPerDay | KeyStartHour | KeyEndHour | KeyRequiresMobileUnlock | KeyGeofenceCenter | KeyGeofenceRadiusKm | KeyMccAllow | KeyMccBlock.

(** [Policy[K]] *)
Definition PolicyValue (key : PolicyKey) : Type :=
  match key with
  | KeyId => JsString
  | KeyName => JsString
  | KeyScope => Scope
  | KeyDailyLimit => number
  | KeyPerTxnLimit => number
  | KeyMaxFillsPerDay => number
  | KeyStartHour => number
  | KeyEndHour => number
  | KeyRequiresMobileUnlock => bool
  | KeyGeofenceCenter => option LatLng
  | KeyGeofenceRadiusKm => option number
  | KeyMccAllow => option (list number)
  | KeyMccBlock => option (list number)
  end.

(** The updater of [update(key, value)]: [(d) => ({ ...d, [key]: value })]. *)
Definition update (key : PolicyKey) : PolicyValue key -> Policy.t -> Policy.t :=
  match key as k return PolicyValue k -> Policy.t -> Policy.t with
  | KeyId => fun value d =>
      Policy.mk value (Policy.name d) (Policy.scope d) (Policy.dailyLimit d)
        (Policy.perTxnLimit d) (Policy.maxFillsPerDay d) (Policy.startHour
        d) (Policy.endHour d) (Policy.requiresMobileUnlock d)
        (Policy.geofenceCenter d) (Policy.geofenceRadiusKm d)
        (Policy.mccAllow d) (Policy.mccBlock d)
  | KeyName => fun value d =>
      Policy.mk (Policy.id d) value (Policy.scope d) (Policy.dailyLimit d)
        (Policy.perTxnLimit d) (Policy.maxFillsPerDay d) (Policy.startHour
        d) (Policy.endHour d) (Policy.requiresMobileUnlock d)
        (Policy.geofenceCenter d) (Policy.geofenceRadiusKm d)
        (Policy.mccAllow d) (Policy.mccBlock d)
  | KeyScope => fun value d =>
      Policy.mk (Policy.id d) (Policy.name d) value (Policy.dailyLimit d)
        (Policy.perTxnLimit d) (Policy.maxFillsPerDay d) (Policy.startHour
        d) (Policy.endHour d) (Policy.requiresMobileUnlock d)
        (Policy.geofenceCenter d) (Policy.geofenceRadiusKm d)
        (Policy.mccAllow d) (Policy.mccBlock d)
  | KeyDailyLimit => fun value d =>
      Policy.mk (Policy.id d) (Policy.name d) (Policy.scope d) value
        (Policy.perTxnLimit d) (Policy.maxFillsPerDay d) (Policy.startHour
        d) (Policy.endHour d) (Policy.requiresMobileUnlock d)
        (Policy.geofenceCenter d) (Policy.geofenceRadiusKm d)
        (Policy.mccAllow d) (Policy.mccBlock d)
  | KeyPerTxnLimit => fun value d =>
      Policy.mk (Policy.id d) (Policy.name d) (Policy.scope d)
        (Policy.dailyLimit d) value (Policy.maxFillsPerDay d)
        (Policy.startHour d) (Policy.endHour d) (Policy.requiresMobileUnlock
        d) (Policy.geofenceCenter d) (Policy.geofenceRadiusKm d)
        (Policy.mccAllow d) (Policy.mccBlock d)
  | KeyMaxFillsPerDay => fun value d =>
      Policy.mk (Policy.id d) (Policy.name d) (Policy.scope d)
        (Policy.dailyLimit d) (Policy.perTxnLimit d) value (Policy.startHour
        d) (Policy.endHour d) (Policy.requiresMobileUnlock d)
        (Policy.geofenceCenter d) (Policy.geofenceRadiusKm d)
        (Policy.mccAllow d) (Policy.mccBlock d)
  | KeyStartHour => fun value d =>
      Policy.mk (Policy.id d) (Policy.name d) (Policy.scope d)
        (Policy.dailyLimit d) (Policy.perTxnLimit d) (Policy.maxFillsPerDay
        d) value (Policy.endHour d) (Policy.requiresMobileUnlock d)
        (Policy.geofenceCenter d) (Policy.geofenceRadiusKm d)
        (Policy.mccAllow d) (Policy.mccBlock d)
  | KeyEndHour => fun value d =>
      Policy.mk (Policy.id d) (Policy.name d) (Policy.scope d)
        (Policy.dailyLimit d) (Policy.perTxnLimit d) (Policy.maxFillsPerDay
        d) (Policy.startHour d) value (Policy.requiresMobileUnlock d)
        (Policy.geofenceCenter d) (Policy.geofenceRadiusKm d)
        (Policy.mccAllow d) (Policy.mccBlock d)
  | KeyRequiresMobileUnlock => fun value d =>
      Policy.mk (Policy.id d) (Policy.name d) (Policy.scope d)
        (Policy.dailyLimit d) (Policy.perTxnLimit d) (Policy.maxFillsPerDay
        d) (Policy.startHour d) (Policy.endHour d) value
        (Policy.geofenceCenter d) (Policy.geofenceRadiusKm d)
        (Policy.mccAllow d) (Policy.mccBlock d)
  | KeyGeofenceCenter => fun value d =>
      Policy.mk (Policy.id d) (Policy.name d) (Policy.scope d)
        (Policy.dailyLimit d) (Policy.perTxnLimit d) (Policy.maxFillsPerDay
        d) (Policy.startHour d) (Policy.endHour d)
        (Policy.requiresMobileUnlock d) value (Policy.geofenceRadiusKm d)
        (Policy.mccAllow d) (Policy.mccBlock d)
  | KeyGeofenceRadiusKm => fun value d =>
      Policy.mk (Policy.id d) (Policy.name d) (Policy.scope d)
        (Policy.dailyLimit d) (Policy.perTxnLimit d) (Policy.maxFillsPerDay
        d) (Policy.startHour d) (Policy.endHour d)
        (Policy.requiresMobileUnlock d) (Policy.geofenceCenter d) value
        (Policy.mccAllow d) (Policy.mccBlock d)
  | KeyMccAllow => fun value d =>
      Policy.mk (Policy.id d) (Policy.name d) (Policy.scope d)
        (Policy.dailyLimit d) (Policy.perTxnLimit d) (Policy.maxFillsPerDay
        d) (Policy.startHour d) (Policy.endHour d)
        (Policy.requiresMobileUnlock d) (Policy.geofenceCenter d)
        (Policy.geofenceRadiusKm d) value (Policy.mccBlock d)
  | KeyMccBlock => fun value d =>
      Policy.mk (Policy.id d) (Policy.name d) (Policy.scope d)
        (Policy.dailyLimit d) (Policy.perTxnLimit d) (Policy.maxFillsPerDay
        d) (Policy.startHour d) (Policy.endHour d)
        (Policy.requiresMobileUnlock d) (Policy.geofenceCenter d)
        (Policy.geofenceRadiusKm d) (Policy.mccAllow d) value
  end.

(** The field of a policy a key names, to state what [update] changes. *)
Definition Policy_get (key : PolicyKey) : Policy.t -> PolicyValue key :=
  match key as k return Policy.t -> PolicyValue k with
  | KeyId => Policy.id
  | KeyName => Policy.name
  | KeyScope => Policy.scope
  | KeyDailyLimit => Policy.dailyLimit
  | KeyPerTxnLimit => Policy.perTxnLimit
  | KeyMaxFillsPerDay => Policy.maxFillsPerDay
  | KeyStartHour => Policy.startHour
  | KeyEndHour => Policy.endHour
  | KeyRequiresMobileUnlock => Policy.requiresMobileUnlock
  | KeyGeofenceCenter => Policy.geofenceCenter
  | KeyGeofenceRadiusKm => Policy.geofenceRadiusKm
  | KeyMccAllow => Policy.mccAllow
  | KeyMccBlock => Policy.mccBlock
  end.

(** The [onChange] handlers of the form, one constructor per input; each
    carries what the event delivers ([e.target.value] or [e.target.checked]). *)
Inductive FormChange : Type :=
| ChangeName (value : JsString)
| ChangeScope (value : Scope)
| ChangeDailyLimit (value : JsString)
| ChangePerTxnLimit (value : JsString)
| ChangeMaxFillsPerDay (value : JsString)
| ChangeStartHour (value : JsString)
| ChangeEndHour (value : JsString)
| ChangeRequiresMobileUnlock (checked : bool)
| ChangeGeofenceLat (value : JsString)
| ChangeGeofenceLng (value : JsString)
| ChangeGeofenceRadiusKm (value : JsString)
| ChangeMccAllow (value : JsString).

(** [draft.geofenceCenter?.lat ?? 0] and [draft.geofenceCenter?.lng ?? 0] *)
Definition centerLatOr0 (draft : Policy.t) : number :=
  match Policy.geofenceCenter draft with
  | Some c => lat c
  | None => of_Z 0
  end.

Definition centerLngOr0 (draft : Policy.t) : number :=
  match Policy.geofenceCenter draft with
  | Some c => lng c
  | None => of_Z 0
  end.

(** The draft after one [onChange]. *)
Definition onChange (c : FormChange) (draft : Policy.t) : Policy.t :=
  match c with
  | ChangeName value => update KeyName value draft
  | ChangeScope value => update KeyScope value draft
  | ChangeDailyLimit value => update KeyDailyLimit (Number value) draft
  | ChangePerTxnLimit value => update KeyPerTxnLimit (Number value) draft
  | ChangeMaxFillsPerDay value => update KeyMaxFillsPerDay (Number value) draft
  | ChangeStartHour value => update KeyStartHour (Number value) draft
  | ChangeEndHour value => update KeyEndHour (Number value) draft
  | ChangeRequiresMobileUnlock checked =>
      update KeyRequiresMobileUnlock checked draft
  | ChangeGeofenceLat value =>
      update KeyGeofenceCenter
        (Some {| lat := Number value; lng := centerLngOr0 draft |}) draft
  | ChangeGeofenceLng value =>
      update KeyGeofenceCenter
        (Some {| lat := centerLatOr0 draft; lng := Number value |}) draft
  | ChangeGeofenceRadiusKm value =>
      update KeyGeofenceRadiusKm (Some (Number value)) draft
  | ChangeMccAllow value =>
      update KeyMccAllow (Some (parseMccAllow value)) draft
  end.

(** A run of changes to the form, applied in order. *)
Definition onChanges (cs : list FormChange) (draft : Policy.t) : Policy.t :=
  fold_left (fun d c => onChange c d) cs draft.

(** The decimal numerals of [codes], joined by commas. *)
Definition mccAllowText (codes : list N) : JsString :=
  join 44 (List.map (fun c => String_of_int (Z.of_N c)) codes).

(** The allowlist with these integer entries. *)
Definition mccCodes (codes : list N) : list number :=
  List.map (fun c => of_Z (Z.of_N c)) codes.

(** [String(n)] where this development writes it: for NaN, the infinities,
    and the integers of magnitude below 2^53, which binary64 holds exactly
    and prints as their decimal numeral.  The text of any other number
    (shortest round-trip digits) is not written: [None]. *)
Definition Number_toString (n : number) : option JsString :=
  match n with
  | NaN => Some (lit "NaN")
  | Infinity false => Some (lit "Infinity")
  | Infinity true => Some (lit "-Infinity")
  | Finite q =>
      if ((Qden (Qred q) =? 1)%positive
          && (Z.abs (Qnum (Qred q)) <? 2 ^ 53)%Z)%bool
      then Some (String_of_int (Qnum (Qred q)))
      else None
  end.

(** The texts of the elements of an array of numbers, when all are written. *)
Fixpoint numbersToStrings (l : list number) : option (list JsString) :=
  match l with
  | [] => Some []
  | n :: l' =>
      match Number_toString n, numbersToStrings l' with
      | Some t, Some ts => Some (t :: ts)
      | _, _ => None
      end
  end.

(** The text the MCC allowlist field shows, line 360:
    [(draft.mccAllow ?? []).join(",")]. *)
Definition mccAllowShown (draft : Policy.t) : option JsString :=
  match numbersToStrings
          (match Policy.mccAllow draft with
           | Some l => l
           | None => []
           end) with
  | Some texts => Some (join 44 texts)
  | None => None
  end.

(** *** The root component as a transition system (lines 520-551) *)

(** ["map" | "policies" | "exceptions"] *)
Inductive Tab : Type := TabMap | TabPolicies | TabExceptions.

Record AppState : Type := {
  vehicles : list Vehicle.t;
  policies : list Policy.t;
  exceptions : list ExceptionItem.t;
  spendWindow : SpendWindow;
  tab : Tab
}.

(** The state of the first render. *)
Definition initialState : AppState :=
  {| vehicles := []; policies := []; exceptions := [];
     spendWindow := Today; tab := TabMap |}.

(** What can happen to the root state: a fetch resolves (the three of the
    mount effect, and [fetchExceptions] again on Refresh), the editor calls
    [onSave] from [save], a row calls [onAction], the toolbar or a tab button
    is used. *)
Inductive AppEvent : Type :=
| VehiclesFetched
| PoliciesFetched
| ExceptionsFetched
| SaveClicked (draft : Policy.t) (now : Z)
| ActionClicked (id : JsString) (action : Action)
| SpendWindowChosen (w : SpendWindow)
| TabClicked (t : Tab).

(** One transition; [t0 t1 t2] are the times of the mock exceptions. *)
Definition step (t0 t1 t2 : JsString) (s : AppState) (e : AppEvent) : AppState :=
  match e with
  | VehiclesFetched =>
      {| vehicles := mockVehicles; policies := policies s;
         exceptions := exceptions s; spendWindow := spendWindow s; tab := tab s |}
  | PoliciesFetched =>
      {| vehicles := vehicles s; policies := mockPolicies;
         exceptions := exceptions s; spendWindow := spendWindow s; tab := tab s |}
  | ExceptionsFetched =>
      {| vehicles := vehicles s; policies := policies s;
         exceptions := mockExceptions t0 t1 t2;
         spendWindow := spendWindow s; tab := tab s |}
  | SaveClicked draft now =>
      {| vehicles := vehicles s;
         policies := handleSavePolicy (save draft now) (policies s);
         exceptions := exceptions s; spendWindow := spendWindow s; tab := tab s |}
  | ActionClicked id action =>
      {| vehicles := vehicles s; policies := policies s;
         exceptions := handleExceptionAction id action (exceptions s);
         spendWindow := spendWindow s; tab := tab s |}
  | SpendWindowChosen w =>
      {| vehicles := vehicles s; policies := policies s;
         exceptions := exceptions s; spendWindow := w; tab := tab s |}
  | TabClicked t =>
      {| vehicles := vehicles s; policies := policies s;
         exceptions := exceptions s; spendWindow := spendWindow s; tab := t |}
  end.

(** The state after a sequence of events. *)
Definition run (t0 t1 t2 : JsString) (events : list AppEvent) (s : AppState)
  : AppState :=
  fold_left (step t0 t1 t2) events s.

(** The draft's allowlist holds no NaN. *)
Definition allowlistHasNoNaN (p : Policy.t) : Prop :=
  match Policy.mccAllow p with
  | Some l => Forall (fun n => isNaN n = false) l
  | None => True
  end.

(** The first stored policy of an id, to state what a lookup by id finds. *)
Definition findPolicy (id : JsString) (l : list Policy.t) : option Policy.t :=
  List.find (fun x => str_eqb (Policy.id x) id) l.

(** Whether an item has the given status. *)
Definition hasStatus (s : Status) (e : ExceptionItem.t) : bool :=
  match s, ExceptionItem.status e with
  | Open, Open | Approved, Approved | Denied, Denied => true
  | _, _ => false
  end.

(** Whether an item has another id than the given one. *)
Definition otherId (id : JsString) (e : ExceptionItem.t) : bool :=
  negb (str_eqb (ExceptionItem.id e) id).

(** Changes that bring the initial draft to a per-transaction limit above
    its daily limit and to a window that starts after it ends. *)
Definition overLimitChanges : list FormChange :=
  [ ChangePerTxnLimit (lit "3000");
    ChangeStartHour (lit "22");
    ChangeEndHour (lit "6") ].

Definition overLimitDraft : Policy.t := onChanges overLimitChanges initialDraft.

(** A run of changes to the form, used by the examples. *)
Definition sampleChanges : list FormChange :=
  [ ChangeName (lit "Night shift");
    ChangeDailyLimit (lit "4000");
    ChangeGeofenceLat (lit "-33.9");
    ChangeMccAllow (lit "5541, x, 7538") ].

Definition noCenterDraft : Policy.t :=
  Policy.mk (lit "new") (lit "No fence") FuelOnly
    (of_Z 2500) (of_Z 1500) (of_Z 2) (of_Z 6) (of_Z 20) true
    None None None None.

(* ===================================================================== *)
(** * Part II: properties *)
(* ===================================================================== *)

(** ** Strings and arrays *)

Lemma str_eqb_eq (a b : JsString) : str_eqb a b = true <-> a = b.
Proof. unfold str_eqb. apply bool_decide_eq_true. Qed.

Lemma str_eqb_neq (a b : JsString) : str_eqb a b = false <-> a <> b.
Proof. unfold str_eqb. apply bool_decide_eq_false. Qed.

Lemma str_eqb_refl (a : JsString) : str_eqb a a = true.
Proof. by apply str_eqb_eq. Qed.

Lemma lookup_map {A B : Type} (f : A -> B) (l : list A) (i : nat) :
  List.map f l !! i = f <$> l !! i.
Proof.
  revert i. induction l as [|x l IH]; intros [|i]; simpl; done.
Qed.

Lemma elem_of_map {A B : Type} (f : A -> B) (l : list A) (x : A) :
  x ∈ l -> f x ∈ List.map f l.
Proof.
  intros Hx. apply list_elem_of_In, in_map. by apply list_elem_of_In.
Qed.

Section FindIndex.
Context {A : Type} (f : A -> bool).

Lemma findIndex_range (l : list A) :
  (-1 <= findIndex f l < Z.of_nat (length l))%Z.
Proof.
  induction l as [|x l IH]; simpl; [lia|].
  destruct (f x); [lia|].
  destruct (Z.leb_spec 0 (findIndex f l)); lia.
Qed.

(** No element satisfies [f]: the answer is -1. *)
Lemma findIndex_none (l : list A) :
  (forall x, x ∈ l -> f x = false) -> findIndex f l = (-1)%Z.
Proof.
  induction l as [|x l IH]; simpl; intros H; [done|].
  rewrite (H x) by apply list_elem_of_here.
  rewrite IH; [done|]. intros y Hy. apply H. by apply list_elem_of_further.
Qed.

(** The answer is the first position whose element satisfies [f]. *)
Lemma findIndex_first (l : list A) (i : nat) (x : A) :
  l !! i = Some x -> f x = true ->
  (forall j y, (j < i)%nat -> l !! j = Some y -> f y = false) ->
  findIndex f l = Z.of_nat i.
Proof.
  revert i. induction l as [|h l IH]; intros i Hi Hx Hbefore; [done|].
  destruct i as [|i]; simpl in *.
  - injection Hi as ->. by rewrite Hx.
  - rewrite (Hbefore 0%nat h) by (done || lia).
    rewrite (IH i Hi Hx).
    + destruct (Z.leb_spec 0 (Z.of_nat i)); lia.
    + intros j y Hj Hy. apply (Hbefore (S j) y); [lia | done].
Qed.

(** A non-negative answer points at an element that satisfies [f]. *)
Lemma findIndex_found (l : list A) :
  (0 <= findIndex f l)%Z ->
  exists x, l !! Z.to_nat (findIndex f l) = Some x /\ f x = true.
Proof.
  induction l as [|h l IH]; simpl; [lia|].
  destruct (f h) eqn:Hh; [intros _; by exists h|].
  destruct (Z.leb_spec 0 (findIndex f l)) as [Hge|Hlt]; [|lia].
  intros _. destruct (IH Hge) as (x & Hx & Hfx). exists x. split; [|done].
  replace (Z.to_nat (findIndex f l + 1)) with (S (Z.to_nat (findIndex f l))) by lia.
  done.
Qed.
End FindIndex.

(** ** Saving a policy *)

Lemma save_id_new (draft : Policy.t) (now : Z) :
  Policy.id draft = lit "new" -> Policy.id (save draft now) = mintId now.
Proof. intros H. unfold save. simpl. rewrite H. by rewrite str_eqb_refl. Qed.

Lemma save_id_other (draft : Policy.t) (now : Z) :
  Policy.id draft <> lit "new" -> save draft now = draft.
Proof.
  intros H. unfold save. apply str_eqb_neq in H. rewrite H. by destruct draft.
Qed.

Lemma mintId_not_new (now : Z) : mintId now <> lit "new".
Proof. unfold mintId. cbn. discriminate. Qed.

Lemma lit_inj (a b : string) : lit a = lit b -> a = b.
Proof.
  unfold lit. intros H.
  rewrite <- (string_of_list_ascii_of_string a), <- (string_of_list_ascii_of_string b).
  f_equal. revert H.
  generalize (list_ascii_of_string a) (list_ascii_of_string b).
  induction l as [|x l IH]; intros [|y l']; simpl; intros H; try done.
  injection H as Hxy Hl. f_equal; [|by apply IH].
  by rewrite <- (ascii_N_embedding x), <- (ascii_N_embedding y), Hxy.
Qed.

Lemma to_int_not_nil (z : Z) : Z.to_int z <> Decimal.Pos Decimal.Nil /\ Z.to_int z <> Decimal.Neg Decimal.Nil.
Proof.
  destruct z as [|q|q]; simpl; split; try discriminate;
    intros [= H]; by apply DecimalPos.Unsigned.to_uint_nonnil in H.
Qed.

(** Different integers print differently. *)
Lemma String_of_int_inj (a b : Z) : String_of_int a = String_of_int b -> a = b.
Proof.
  unfold String_of_int. intros H. apply lit_inj in H.
  destruct (to_int_not_nil a) as [Ha1 Ha2], (to_int_not_nil b) as [Hb1 Hb2].
  pose proof (NilZero.isi _ Ha1 Ha2) as Ia. pose proof (NilZero.isi _ Hb1 Hb2) as Ib.
  rewrite H, Ib in Ia. injection Ia as Hab.
  by rewrite <- (DecimalZ.of_to a), <- (DecimalZ.of_to b), Hab.
Qed.

(** Different clock readings mint different ids. *)
Lemma mintId_inj (a b : Z) : mintId a = mintId b -> a = b.
Proof.
  unfold mintId. intros H. apply app_inv_head in H. by apply String_of_int_inj.
Qed.

(** With no stored policy of that id, the policy goes in front. *)
Lemma handleSavePolicy_prepend (p : Policy.t) (prev : list Policy.t) :
  (forall x, x ∈ prev -> Policy.id x <> Policy.id p) ->
  handleSavePolicy p prev = p :: prev.
Proof.
  intros H. unfold handleSavePolicy.
  rewrite findIndex_none; [done|].
  intros x Hx. apply str_eqb_neq. by apply H.
Qed.

(** The first stored policy of that id is overwritten where it stands. *)
Lemma handleSavePolicy_replace_first (p : Policy.t) (prev : list Policy.t)
    (i : nat) (x : Policy.t) :
  prev !! i = Some x -> Policy.id x = Policy.id p ->
  (forall j y, (j < i)%nat -> prev !! j = Some y -> Policy.id y <> Policy.id p) ->
  handleSavePolicy p prev = <[i := p]> prev.
Proof.
  intros Hi Hid Hbefore. unfold handleSavePolicy.
  rewrite (findIndex_first _ prev i x Hi).
  - destruct (Z.leb_spec 0 (Z.of_nat i)); [|lia]. by rewrite Nat2Z.id.
  - by apply str_eqb_eq.
  - intros j y Hj Hy. apply str_eqb_neq. by apply (Hbefore j y).
Qed.

(** Either way the saved policy is stored afterwards. *)
Lemma handleSavePolicy_stores (p : Policy.t) (prev : list Policy.t) :
  p ∈ handleSavePolicy p prev.
Proof.
  unfold handleSavePolicy.
  destruct (Z.leb_spec 0 (findIndex (fun x => str_eqb (Policy.id x) (Policy.id p)) prev))
    as [Hge|Hlt].
  - destruct (findIndex_found _ prev Hge) as (x & Hx & _).
    apply list_elem_of_lookup. exists (Z.to_nat (findIndex (fun x0 => str_eqb (Policy.id x0) (Policy.id p)) prev)).
    apply list_lookup_insert_eq. by apply lookup_lt_Some in Hx.
  - apply list_elem_of_here.
Qed.

(** With distinct stored ids, the position of an id is its first position. *)
Lemma NoDup_ids_first (prev : list Policy.t) (i : nat) (x : Policy.t) (id : JsString) :
  NoDup (List.map Policy.id prev) ->
  prev !! i = Some x -> Policy.id x = id ->
  forall j y, (j < i)%nat -> prev !! j = Some y -> Policy.id y <> id.
Proof.
  intros Hnd Hi Hid j y Hj Hy Heq.
  assert (List.map Policy.id prev !! i = Some id) as Hi'
    by (rewrite lookup_map, Hi; simpl; by rewrite Hid).
  assert (List.map Policy.id prev !! j = Some id) as Hj'
    by (rewrite lookup_map, Hy; simpl; by rewrite Heq).
  pose proof (NoDup_lookup _ _ _ _ Hnd Hi' Hj'). lia.
Qed.

Lemma map_fmap {A B : Type} (f : A -> B) (l : list A) : List.map f l = f <$> l.
Proof. reflexivity. Qed.

(** Saving keeps the stored ids pairwise distinct. *)
Lemma handleSavePolicy_NoDup (p : Policy.t) (prev : list Policy.t) :
  NoDup (List.map Policy.id prev) ->
  NoDup (List.map Policy.id (handleSavePolicy p prev)).
Proof.
  intros Hnd. unfold handleSavePolicy.
  set (f := fun x => str_eqb (Policy.id x) (Policy.id p)).
  destruct (Z.leb_spec 0 (findIndex f prev)) as [Hge|Hlt].
  - destruct (findIndex_found f prev Hge) as (x & Hx & Hfx).
    apply str_eqb_eq in Hfx.
    rewrite map_fmap, list_fmap_insert, <- Hfx, list_insert_id; [done|].
    by rewrite list_lookup_fmap, Hx.
  - simpl. apply NoDup_cons. split; [|done].
    intros Hin. apply list_elem_of_In, in_map_iff in Hin as (y & Hy & Hin).
    assert (exists i, prev !! i = Some y) as [i Hi]
      by (apply list_elem_of_lookup; by apply list_elem_of_In).
    assert (f y = true) as Hfy by (by apply str_eqb_eq).
    clear Hnd Hin Hy. revert i Hi. induction prev as [|h l IH]; [done|].
    simpl in Hlt. destruct (f h) eqn:Hh; [lia|].
    destruct (Z.leb_spec 0 (findIndex f l)); [lia|].
    intros [|i] Hi; simpl in Hi; [congruence | by apply (IH ltac:(lia) i)].
Qed.

(** C4: a saved policy whose id is the id of a stored policy overwrites that
    entry at its position, the length and every other entry being unchanged;
    a draft whose id is the placeholder "new" is saved as the same draft
    under the id "P-" followed by the clock reading, which is not "new" and
    differs between different clock readings. *)
Theorem save_replaces_in_place_and_mints_id :
  (forall (p : Policy.t) (prev : list Policy.t) (i : nat) (x : Policy.t),
      NoDup (List.map Policy.id prev) ->
      prev !! i = Some x -> Policy.id x = Policy.id p ->
      handleSavePolicy p prev = <[i := p]> prev /\
      length (handleSavePolicy p prev) = length prev /\
      handleSavePolicy p prev !! i = Some p /\
      forall j, j <> i -> handleSavePolicy p prev !! j = prev !! j) /\
  (forall (draft : Policy.t) (now : Z) (prev : list Policy.t),
      Policy.id draft = lit "new" ->
      save draft now = Policy.with_id (lit "P-" ++ String_of_int now) draft /\
      Policy.id (save draft now) <> lit "new" /\
      save draft now ∈ clickSave draft now prev) /\
  (forall now1 now2 : Z,
      lit "P-" ++ String_of_int now1 = lit "P-" ++ String_of_int now2 ->
      now1 = now2).
Proof.
  split; [|split; [|apply mintId_inj]].
  - intros p prev i x Hnd Hi Hid.
    rewrite (handleSavePolicy_replace_first p prev i x Hi Hid)
      by (by apply (NoDup_ids_first prev i x)).
    repeat split.
    + apply length_insert.
    + apply list_lookup_insert_eq. by apply lookup_lt_Some in Hi.
    + intros j Hj. by apply list_lookup_insert_ne.
  - intros draft now prev Hnew. repeat split.
    + unfold save. rewrite Hnew. by rewrite str_eqb_refl.
    + rewrite (save_id_new draft now Hnew). apply mintId_not_new.
    + apply handleSavePolicy_stores.
Qed.

Lemma save_replaces_in_place_and_mints_id_witness :
  handleSavePolicy editedP2 mockPolicies = <[1%nat := editedP2]> mockPolicies /\
  Policy.id (save initialDraft 1700000000000) <> lit "new".
Proof.
  split.
  - refine (proj1 (proj1 save_replaces_in_place_and_mints_id
                     editedP2 mockPolicies 1%nat
                     (Policy.mk (lit "P-2") (lit "Maintenance & Fuel") FuelMaintenance
                        (of_Z 15000) (of_Z 5000) (of_Z 6) (of_Z 5) (of_Z 22) false
                        None None
                        (Some [of_Z 5541; of_Z 5542; of_Z 7538; of_Z 5013]) None)
                     _ _ _)).
    + apply (bool_decide_unpack _). vm_compute. reflexivity.
    + reflexivity.
    + reflexivity.
  - refine (proj1 (proj2 (proj1 (proj2 save_replaces_in_place_and_mints_id)
                            initialDraft 1700000000000%Z mockPolicies _))).
    reflexivity.
Defined.

(** C10: a saved policy whose id is the id of no stored policy is put in
    front of the stored policies, which follow unchanged and in order. *)
Theorem save_prepends_unknown_id (p : Policy.t) (prev : list Policy.t) :
  (forall x, x ∈ prev -> Policy.id x <> Policy.id p) ->
  handleSavePolicy p prev = p :: prev.
Proof. apply handleSavePolicy_prepend. Qed.

Lemma save_prepends_unknown_id_witness :
  handleSavePolicy (save initialDraft 1700000000000) mockPolicies
  = save initialDraft 1700000000000 :: mockPolicies.
Proof.
  apply save_prepends_unknown_id.
  intros x Hx. apply list_elem_of_In in Hx. simpl in Hx.
  destruct Hx as [<-|[<-|[]]]; vm_compute; discriminate.
Defined.

Section FindIndexSpec.
Context {A : Type} (f : A -> bool).

(** Before a non-negative answer no element satisfies [f]. *)
Lemma findIndex_before (l : list A) (j : nat) (y : A) :
  (Z.of_nat j < findIndex f l)%Z -> l !! j = Some y -> f y = false.
Proof.
  revert j. induction l as [|h l IH]; intros j; simpl; [done|].
  destruct (f h) eqn:Hh; [lia|].
  destruct (Z.leb_spec 0 (findIndex f l)) as [Hge|Hlt]; [|lia].
  destruct j as [|j]; simpl; [congruence|].
  intros Hj Hy. apply (IH j); [lia | done].
Qed.

(** An answer of -1 means that no element satisfies [f]. *)
Lemma findIndex_absent (l : list A) (x : A) :
  (findIndex f l < 0)%Z -> x ∈ l -> f x = false.
Proof.
  induction l as [|h l IH]; simpl; intros Hlt Hx; [by apply elem_of_nil in Hx|].
  destruct (f h) eqn:Hh; [lia|].
  destruct (Z.leb_spec 0 (findIndex f l)) as [Hge|Hlt']; [lia|].
  apply elem_of_cons in Hx as [->|Hx]; [done | by apply IH].
Qed.

Lemma find_first (l : list A) (i : nat) (x : A) :
  l !! i = Some x -> f x = true ->
  (forall j y, (j < i)%nat -> l !! j = Some y -> f y = false) ->
  List.find f l = Some x.
Proof.
  revert i. induction l as [|h l IH]; intros i Hi Hx Hbefore; [done|].
  destruct i as [|i]; simpl in *.
  - injection Hi as ->. by rewrite Hx.
  - rewrite (Hbefore 0%nat h) by (done || lia).
    apply (IH i Hi Hx). intros j y Hj Hy. apply (Hbefore (S j) y); [lia | done].
Qed.

Lemma find_insert_irrelevant (l : list A) (i : nat) (x p : A) :
  l !! i = Some x -> f x = false -> f p = false ->
  List.find f (<[i := p]> l) = List.find f l.
Proof.
  revert i. induction l as [|h l IH]; intros i Hi Hx Hp; [done|].
  destruct i as [|i]; simpl in *.
  - injection Hi as ->. by rewrite Hx, Hp.
  - destruct (f h); [done|]. by apply (IH i).
Qed.
End FindIndexSpec.

(** The two cases of [handleSavePolicy], with what [findIndex] found. *)
Lemma handleSavePolicy_cases (p : Policy.t) (prev : list Policy.t) :
  (handleSavePolicy p prev = p :: prev /\
   forall x, x ∈ prev -> Policy.id x <> Policy.id p) \/
  (exists i x, handleSavePolicy p prev = <[i := p]> prev /\
     prev !! i = Some x /\ Policy.id x = Policy.id p /\
     forall j y, (j < i)%nat -> prev !! j = Some y -> Policy.id y <> Policy.id p).
Proof.
  unfold handleSavePolicy.
  set (f := fun x => str_eqb (Policy.id x) (Policy.id p)).
  destruct (Z.leb_spec 0 (findIndex f prev)) as [Hge|Hlt].
  - right. destruct (findIndex_found f prev Hge) as (x & Hx & Hfx).
    exists (Z.to_nat (findIndex f prev)), x.
    split; [done|]. split; [done|]. split; [by apply str_eqb_eq|].
    intros j y Hj Hy. apply str_eqb_neq.
    apply (findIndex_before f prev j y); [lia | done].
  - left. split; [done|]. intros x Hx. apply str_eqb_neq.
    by apply (findIndex_absent f prev).
Qed.

(** C2, as the code has it: a save is never rejected.  Whatever the limits
    and hours of the draft, the policy handed over by [save] is the draft
    itself, or the draft under the id "P-" followed by the clock reading when
    its id is "new", so its limits and hours are those of the draft; it is in
    the stored collection afterwards, which is the previous one with the
    first entry of that id overwritten at its position or, when no entry has
    that id, the previous one with the policy put in front. *)
Theorem save_never_rejects (draft : Policy.t) (now : Z) (prev : list Policy.t) :
  (Policy.id draft = lit "new" ->
   save draft now = Policy.with_id (lit "P-" ++ String_of_int now) draft) /\
  (Policy.id draft <> lit "new" -> save draft now = draft) /\
  Policy.perTxnLimit (save draft now) = Policy.perTxnLimit draft /\
  Policy.dailyLimit (save draft now) = Policy.dailyLimit draft /\
  Policy.startHour (save draft now) = Policy.startHour draft /\
  Policy.endHour (save draft now) = Policy.endHour draft /\
  save draft now ∈ clickSave draft now prev /\
  ((exists i x,
       prev !! i = Some x /\ Policy.id x = Policy.id (save draft now) /\
       (forall j y, (j < i)%nat -> prev !! j = Some y ->
          Policy.id y <> Policy.id (save draft now)) /\
       clickSave draft now prev = <[i := save draft now]> prev) \/
   ((forall x, x ∈ prev -> Policy.id x <> Policy.id (save draft now)) /\
    clickSave draft now prev = save draft now :: prev)).
Proof.
  split; [intros Hnew; unfold save; rewrite Hnew; by rewrite str_eqb_refl|].
  split; [apply save_id_other|].
  do 4 (split; [reflexivity|]).
  split; [apply handleSavePolicy_stores|].
  unfold clickSave.
  destruct (handleSavePolicy_cases (save draft now) prev)
    as [[E Hnone]|(i & x & E & Hi & Hid & Hbefore)].
  - by right.
  - left. by exists i, x.
Qed.

Lemma save_never_rejects_witness :
  save overLimitDraft 1700000000000
  = Policy.with_id (lit "P-" ++ String_of_int 1700000000000) overLimitDraft /\
  ((exists i x,
       mockPolicies !! i = Some x /\
       Policy.id x = Policy.id (save overLimitDraft 1700000000000) /\
       (forall j y, (j < i)%nat -> mockPolicies !! j = Some y ->
          Policy.id y <> Policy.id (save overLimitDraft 1700000000000)) /\
       clickSave overLimitDraft 1700000000000 mockPolicies
       = <[i := save overLimitDraft 1700000000000]> mockPolicies) \/
   ((forall x, x ∈ mockPolicies ->
       Policy.id x <> Policy.id (save overLimitDraft 1700000000000)) /\
    clickSave overLimitDraft 1700000000000 mockPolicies
    = save overLimitDraft 1700000000000 :: mockPolicies)).
Proof.
  split.
  - apply (proj1 (save_never_rejects overLimitDraft 1700000000000 mockPolicies)).
    reflexivity.
  - apply (proj2 (proj2 (proj2 (proj2 (proj2 (proj2 (proj2
             (save_never_rejects overLimitDraft 1700000000000 mockPolicies)))))))).
Defined.

(** C2 fails on the code: typing 3000 as per-transaction limit, 22 as start
    hour and 6 as end hour into the initial form gives a draft whose
    per-transaction limit exceeds its daily limit (2500) and whose window
    starts after it ends; Save stores it in front of the stored policies,
    and the collection changes. *)
Lemma save_accepts_invalid_policy :
  overLimitDraft
  = Policy.mk (lit "new") (lit "New Policy") FuelOnly
      (of_Z 2500) (of_Z 3000) (of_Z 2) (of_Z 22) (of_Z 6) true
      (Some {| lat := Finite (-262041 # 10000); lng := Finite (280473 # 10000) |})
      (Some (of_Z 10)) (Some [of_Z 5541; of_Z 5542]) None /\
  gt (Policy.perTxnLimit overLimitDraft) (Policy.dailyLimit overLimitDraft) = true /\
  ge (Policy.startHour overLimitDraft) (Policy.endHour overLimitDraft) = true /\
  clickSave overLimitDraft 1700000000000 mockPolicies
  = Policy.with_id (lit "P-1700000000000") overLimitDraft :: mockPolicies /\
  clickSave overLimitDraft 1700000000000 mockPolicies <> mockPolicies.
Proof.
  assert (clickSave overLimitDraft 1700000000000 mockPolicies
          = Policy.with_id (lit "P-1700000000000") overLimitDraft :: mockPolicies) as E
    by (vm_compute; reflexivity).
  split; [vm_compute; reflexivity|].
  split; [vm_compute; reflexivity|].
  split; [vm_compute; reflexivity|].
  split; [exact E|].
  rewrite E. intros H. apply (f_equal (@length _)) in H. simpl in H. lia.
Qed.

(** ** Filtering the exceptions queue *)

Section Filter.
Context {A : Type} (p : A -> bool).

Lemma filter_sublist (l : list A) : List.filter p l `sublist_of` l.
Proof.
  induction l as [|x l IH]; simpl; [constructor|].
  destruct (p x); by constructor.
Qed.

Lemma filter_all_true (l : list A) :
  (forall x, p x = true) -> List.filter p l = l.
Proof.
  intros H. induction l as [|x l IH]; simpl; [done|]. by rewrite H, IH.
Qed.

Lemma filter_Forall (l : list A) : Forall (fun x => p x = true) (List.filter p l).
Proof.
  induction l as [|x l IH]; simpl; [constructor|].
  destruct (p x) eqn:Hx; [by constructor | done].
Qed.

(** Nothing that satisfies [p] is lost, and the order is kept: every
    subsequence of [l] made of elements satisfying [p] is a subsequence of
    the result. *)
Lemma filter_sublist_max (k l : list A) :
  k `sublist_of` l -> Forall (fun x => p x = true) k ->
  k `sublist_of` List.filter p l.
Proof.
  induction 1 as [|x k l Hkl IH|x k l Hkl IH]; intros Hall; simpl.
  - constructor.
  - apply Forall_cons in Hall as [Hx Hk]. rewrite Hx. constructor. by apply IH.
  - destruct (p x); [constructor|]; by apply IH.
Qed.
End Filter.

(** What the callback of [filtered] tests when one status is selected. *)
Lemma filter_callback_status (s : Status) (e : ExceptionItem.t) :
  (if str_eqb (StatusFilter_str (StatusFilter_of s)) (lit "All") then true
   else str_eqb (Status_str (ExceptionItem.status e))
          (StatusFilter_str (StatusFilter_of s))) = true
  <-> ExceptionItem.status e = s.
Proof.
  destruct s, (ExceptionItem.status e); vm_compute; split; congruence.
Qed.

(** C3: with "All" the list comes back unchanged; with "Open", "Approved" or
    "Denied" the result is a subsequence of the input (same relative order),
    made only of items of that status, and it contains every subsequence of
    the input made only of such items, so no such item is left out. *)
Theorem filtered_is_status_subsequence (exceptions : list ExceptionItem.t) :
  filtered exceptions FilterAll = exceptions /\
  forall s : Status,
    filtered exceptions (StatusFilter_of s) `sublist_of` exceptions /\
    Forall (fun e => ExceptionItem.status e = s)
      (filtered exceptions (StatusFilter_of s)) /\
    forall k : list ExceptionItem.t,
      k `sublist_of` exceptions ->
      Forall (fun e => ExceptionItem.status e = s) k ->
      k `sublist_of` filtered exceptions (StatusFilter_of s).
Proof.
  split; [by apply filter_all_true|].
  intros s. unfold filtered. split; [apply filter_sublist|]. split.
  - eapply Forall_impl; [apply filter_Forall|].
    intros e He. by apply (filter_callback_status s e).
  - intros k Hk Hall. apply filter_sublist_max; [done|].
    eapply Forall_impl; [exact Hall|].
    intros e He. by apply (filter_callback_status s e).
Qed.

Lemma filtered_is_status_subsequence_witness :
  [openItem] `sublist_of` filtered sampleQueue FilterOpen.
Proof.
  apply (proj2 (proj2 (proj2 (filtered_is_status_subsequence sampleQueue) Open))).
  - do 2 apply sublist_cons. apply sublist_skip. apply sublist_nil.
  - constructor; [reflexivity | constructor].
Defined.

(** ** Triage of an exception *)

Lemma with_status_same (e : ExceptionItem.t) :
  ExceptionItem.with_status (ExceptionItem.status e) e = e.
Proof. by destruct e. Qed.

(** The item at each position after a triage click. *)
Lemma handleExceptionAction_lookup (id : JsString) (action : Action)
    (prev : list ExceptionItem.t) (i : nat) :
  handleExceptionAction id action prev !! i
  = (fun e => if str_eqb (ExceptionItem.id e) id
              then ExceptionItem.with_status (Action_status action) e
              else e) <$> prev !! i.
Proof. unfold handleExceptionAction. apply lookup_map. Qed.

Lemma handleExceptionAction_length (id : JsString) (action : Action)
    (prev : list ExceptionItem.t) :
  length (handleExceptionAction id action prev) = length prev.
Proof. unfold handleExceptionAction. apply length_map. Qed.

Lemma handleExceptionAction_no_match (id : JsString) (action : Action)
    (prev : list ExceptionItem.t) :
  (forall e, e ∈ prev -> ExceptionItem.id e <> id) ->
  handleExceptionAction id action prev = prev.
Proof.
  unfold handleExceptionAction. induction prev as [|x l IH]; intros H; [done|].
  simpl. rewrite IH by (intros e He; apply H; by apply list_elem_of_further).
  assert (str_eqb (ExceptionItem.id x) id = false) as ->; [|done].
  apply str_eqb_neq, H, list_elem_of_here.
Qed.

(** A position whose item changed held an item of the given id. *)
Lemma handleExceptionAction_changed (id : JsString) (action : Action)
    (prev : list ExceptionItem.t) (i : nat) :
  handleExceptionAction id action prev !! i <> prev !! i ->
  List.map ExceptionItem.id prev !! i = Some id.
Proof.
  rewrite handleExceptionAction_lookup, lookup_map.
  destruct (prev !! i) as [e|]; simpl; [|done].
  destruct (str_eqb (ExceptionItem.id e) id) eqn:E; [|done].
  apply str_eqb_eq in E. by rewrite E.
Qed.

(** C8: a triage click keeps the length of the collection; at each position
    the item is the previous one, except that an item of the given id gets
    the action as its status and keeps all its other fields; when no item has
    the given id the collection is unchanged; and when the ids are pairwise
    distinct at most one position changes. *)
Theorem triage_frame (id : JsString) (action : Action)
    (prev : list ExceptionItem.t) :
  length (handleExceptionAction id action prev) = length prev /\
  (forall i e, prev !! i = Some e ->
     exists e', handleExceptionAction id action prev !! i = Some e' /\
       e' = ExceptionItem.with_status (ExceptionItem.status e') e /\
       (ExceptionItem.id e <> id -> e' = e) /\
       (ExceptionItem.id e = id ->
        ExceptionItem.status e' = Action_status action)) /\
  ((forall e, e ∈ prev -> ExceptionItem.id e <> id) ->
   handleExceptionAction id action prev = prev) /\
  (NoDup (List.map ExceptionItem.id prev) ->
   forall i j,
     handleExceptionAction id action prev !! i <> prev !! i ->
     handleExceptionAction id action prev !! j <> prev !! j ->
     i = j).
Proof.
  split; [apply handleExceptionAction_length|]. split; [|split].
  - intros i e Hi. rewrite handleExceptionAction_lookup, Hi. simpl.
    destruct (str_eqb (ExceptionItem.id e) id) eqn:E.
    + apply str_eqb_eq in E. eexists. split; [done|]. by repeat split.
    + apply str_eqb_neq in E. exists e. split; [done|].
      split; [by rewrite with_status_same|]. by split.
  - apply handleExceptionAction_no_match.
  - intros Hnd i j Hi Hj.
    apply handleExceptionAction_changed in Hi, Hj.
    by apply (NoDup_lookup _ _ _ _ Hnd Hi Hj).
Qed.

Lemma triage_frame_witness :
  handleExceptionAction (lit "E-404") ActApproved sampleQueue = sampleQueue /\
  (exists e', handleExceptionAction (lit "E-9003") ActApproved sampleQueue !! 2%nat
              = Some e' /\
     e' = ExceptionItem.with_status (ExceptionItem.status e') openItem /\
     (ExceptionItem.id openItem <> lit "E-9003" -> e' = openItem) /\
     (ExceptionItem.id openItem = lit "E-9003" ->
      ExceptionItem.status e' = Action_status ActApproved)).
Proof.
  split.
  - apply (proj1 (proj2 (proj2 (triage_frame (lit "E-404") ActApproved sampleQueue)))).
    intros e He. apply list_elem_of_In in He. simpl in He.
    destruct He as [<-|[<-|[<-|[]]]]; vm_compute; discriminate.
  - apply (proj1 (proj2 (triage_frame (lit "E-9003") ActApproved sampleQueue))).
    reflexivity.
Defined.

(** The status at each position after one triage click. *)
Lemma handleExceptionAction_status (id : JsString) (action : Action)
    (prev : list ExceptionItem.t) (i : nat) (e : ExceptionItem.t) :
  prev !! i = Some e ->
  exists e', handleExceptionAction id action prev !! i = Some e' /\
    ExceptionItem.id e' = ExceptionItem.id e /\
    ExceptionItem.status e'
    = if str_eqb (ExceptionItem.id e) id then Action_status action
      else ExceptionItem.status e.
Proof.
  intros Hi. rewrite handleExceptionAction_lookup, Hi. simpl.
  eexists. split; [done|]. by destruct (str_eqb (ExceptionItem.id e) id).
Qed.

Lemma triageRun_cons (c : JsString * Action) (clicks : list (JsString * Action))
    (prev : list ExceptionItem.t) :
  triageRun (c :: clicks) prev
  = triageRun clicks (handleExceptionAction (fst c) (snd c) prev).
Proof. reflexivity. Qed.

(** After a run of clicks an item has the decision of the last click that
    named it, or its initial status when none did. *)
Lemma triageRun_status (clicks : list (JsString * Action))
    (prev : list ExceptionItem.t) (i : nat) (e : ExceptionItem.t) :
  prev !! i = Some e ->
  exists e', triageRun clicks prev !! i = Some e' /\
    ExceptionItem.id e' = ExceptionItem.id e /\
    ExceptionItem.status e'
    = match lastDecision (ExceptionItem.id e) clicks with
      | Some a => Action_status a
      | None => ExceptionItem.status e
      end.
Proof.
  revert prev e. induction clicks as [|c clicks IH]; intros prev e Hi.
  - exists e. by repeat split.
  - rewrite triageRun_cons.
    destruct (handleExceptionAction_status (fst c) (snd c) prev i e Hi)
      as (e1 & H1 & Hid1 & Hst1).
    destruct (IH _ e1 H1) as (e' & H' & Hid' & Hst').
    exists e'. split; [done|]. split; [congruence|].
    rewrite Hst', Hid1. simpl.
    destruct (lastDecision (ExceptionItem.id e) clicks); [done|].
    rewrite Hst1. unfold str_eqb.
    destruct (decide (ExceptionItem.id e = fst c)) as [->|Hne].
    + by rewrite !bool_decide_eq_true_2.
    + by rewrite !bool_decide_eq_false_2.
Qed.

(** C1, as the code has it: a triage click is not gated on the current
    status and has no failure.  An item of the given id gets the decision as
    its status whatever its status was (Open, Approved or Denied), any other
    item keeps its status, so every change of status ends in Approved or
    Denied; after a run of clicks an item has the decision of the last click
    that named it. *)
Theorem triage_sets_status_from_any_status :
  (forall (id : JsString) (action : Action) (prev : list ExceptionItem.t)
          (i : nat) (e : ExceptionItem.t),
      prev !! i = Some e ->
      exists e', handleExceptionAction id action prev !! i = Some e' /\
        (ExceptionItem.id e = id ->
         ExceptionItem.status e' = Action_status action) /\
        (ExceptionItem.id e <> id ->
         ExceptionItem.status e' = ExceptionItem.status e) /\
        (ExceptionItem.status e' <> ExceptionItem.status e ->
         ExceptionItem.status e' = Approved \/ ExceptionItem.status e' = Denied)) /\
  (forall (clicks : list (JsString * Action)) (prev : list ExceptionItem.t)
          (i : nat) (e : ExceptionItem.t),
      prev !! i = Some e ->
      exists e', triageRun clicks prev !! i = Some e' /\
        ExceptionItem.status e'
        = match lastDecision (ExceptionItem.id e) clicks with
          | Some a => Action_status a
          | None => ExceptionItem.status e
          end).
Proof.
  split.
  - intros id action prev i e Hi.
    destruct (handleExceptionAction_status id action prev i e Hi)
      as (e' & H' & _ & Hst).
    exists e'. split; [done|]. unfold str_eqb in Hst.
    destruct (decide (ExceptionItem.id e = id)) as [Heq|Hne].
    + rewrite bool_decide_eq_true_2 in Hst by done.
      split; [done|]. split; [done|].
      intros _. rewrite Hst. destruct action; [by left | by right].
    + rewrite bool_decide_eq_false_2 in Hst by done. by repeat split.
  - intros clicks prev i e Hi.
    destruct (triageRun_status clicks prev i e Hi) as (e' & H' & _ & Hst).
    by exists e'.
Qed.

Lemma triage_sets_status_from_any_status_witness :
  (exists e', handleExceptionAction (lit "E-9001") ActDenied sampleQueue !! 0%nat
              = Some e' /\
     (ExceptionItem.id approvedItem = lit "E-9001" ->
      ExceptionItem.status e' = Action_status ActDenied) /\
     (ExceptionItem.id approvedItem <> lit "E-9001" ->
      ExceptionItem.status e' = ExceptionItem.status approvedItem) /\
     (ExceptionItem.status e' <> ExceptionItem.status approvedItem ->
      ExceptionItem.status e' = Approved \/ ExceptionItem.status e' = Denied)) /\
  (exists e', triageRun [(lit "E-9002", ActApproved); (lit "E-9002", ActDenied);
                         (lit "E-9002", ActApproved)] sampleQueue !! 1%nat
              = Some e' /\
     ExceptionItem.status e'
     = match lastDecision (ExceptionItem.id deniedItem)
               [(lit "E-9002", ActApproved); (lit "E-9002", ActDenied);
                (lit "E-9002", ActApproved)] with
       | Some a => Action_status a
       | None => ExceptionItem.status deniedItem
       end).
Proof.
  split.
  - apply (proj1 triage_sets_status_from_any_status). reflexivity.
  - apply (proj2 triage_sets_status_from_any_status). reflexivity.
Defined.

(** C1 fails on the code: an Approved item is set to Denied by a Deny click,
    and a Denied item is set to Approved by an Approve click. *)
Lemma triage_overwrites_terminal_status :
  ExceptionItem.status approvedItem = Approved /\
  handleExceptionAction (ExceptionItem.id approvedItem) ActDenied sampleQueue
  = [ExceptionItem.with_status Denied approvedItem; deniedItem; openItem] /\
  ExceptionItem.status deniedItem = Denied /\
  handleExceptionAction (ExceptionItem.id deniedItem) ActApproved sampleQueue
  = [approvedItem; ExceptionItem.with_status Approved deniedItem; openItem] /\
  ExceptionItem.with_status Denied approvedItem <> approvedItem /\
  ExceptionItem.with_status Approved deniedItem <> deniedItem.
Proof.
  split; [reflexivity|]. split; [vm_compute; reflexivity|].
  split; [reflexivity|]. split; [vm_compute; reflexivity|].
  split; intros H; apply (f_equal ExceptionItem.status) in H; discriminate.
Qed.

(** ** The map panel *)

(** The key chosen from the spend window selects that window's aggregate. *)
Lemma MapPanel_key (w : SpendWindow) (v : Vehicle.t) :
  Vehicle_get v
    (if str_eqb (SpendWindow_str w) (lit "today") then KeySpendToday
     else if str_eqb (SpendWindow_str w) (lit "7d") then KeySpend7d
     else KeySpend30d)
  = spendOf w v.
Proof. by destruct w. Qed.

(** C7: the projection is a function of the vehicles and the window alone;
    it returns a feature collection with as many features as vehicles, the
    feature at each position being a point feature with the id, plate and
    driver of the vehicle at that position, the spend aggregate of the
    window, and the coordinates (longitude, latitude) of the vehicle. *)
Theorem projection_one_feature_per_vehicle
    (vehicles : list Vehicle.t) (w : SpendWindow) :
  GeoJSON.type (MapPanel_geojson vehicles w) = lit "FeatureCollection" /\
  length (GeoJSON.features (MapPanel_geojson vehicles w)) = length vehicles /\
  forall (i : nat) (v : Vehicle.t),
    vehicles !! i = Some v ->
    exists f, GeoJSON.features (MapPanel_geojson vehicles w) !! i = Some f /\
      GeoJSON.feature_type f = lit "Feature" /\
      GeoJSON.id (GeoJSON.properties f) = Vehicle.id v /\
      GeoJSON.plate (GeoJSON.properties f) = Vehicle.plate v /\
      GeoJSON.driver (GeoJSON.properties f) = Vehicle.driver v /\
      GeoJSON.spend (GeoJSON.properties f) = spendOf w v /\
      GeoJSON.geometry_type (GeoJSON.geometry f) = lit "Point" /\
      GeoJSON.coordinates (GeoJSON.geometry f) = [Vehicle.lng v; Vehicle.lat v].
Proof.
  unfold MapPanel_geojson, vehiclesToGeoJSON. simpl.
  split; [done|]. split; [apply length_map|].
  intros i v Hi. rewrite lookup_map, Hi. simpl.
  eexists. split; [done|]. simpl. rewrite MapPanel_key. by repeat split.
Qed.

Lemma projection_one_feature_per_vehicle_witness :
  exists f, GeoJSON.features (MapPanel_geojson mockVehicles Days7) !! 3%nat = Some f /\
    GeoJSON.feature_type f = lit "Feature" /\
    GeoJSON.id (GeoJSON.properties f) = lit "V-104" /\
    GeoJSON.plate (GeoJSON.properties f) = lit "PLK 908 LP" /\
    GeoJSON.driver (GeoJSON.properties f) = lit "T. Mokoena" /\
    GeoJSON.spend (GeoJSON.properties f) = of_Z 9500 /\
    GeoJSON.geometry_type (GeoJSON.geometry f) = lit "Point" /\
    GeoJSON.coordinates (GeoJSON.geometry f)
    = [Finite (294689 # 10000); Finite (-239045 # 10000)].
Proof.
  apply (proj2 (proj2 (projection_one_feature_per_vehicle mockVehicles Days7))
           3%nat
           (Vehicle.mk (lit "V-104") (lit "PLK 908 LP") (lit "T. Mokoena")
              (Finite (-239045 # 10000)) (Finite (294689 # 10000))
              (of_Z 1800) (of_Z 9500) (of_Z 32000))).
  reflexivity.
Defined.

(** ** The MCC allowlist field *)

Section Split.
Variable sep : N.

Lemma split_nonempty (s : JsString) : split sep s <> [].
Proof.
  destruct s as [|c s]; simpl; [done|].
  destruct (c =? sep)%N; [done|]. by destruct (split sep s).
Qed.

Lemma join_cons_head (c : N) (tok : JsString) (rest : list JsString) :
  join sep ((c :: tok) :: rest) = c :: join sep (tok :: rest).
Proof. by destruct rest. Qed.

(** Joining the pieces with the separator gives the string back. *)
Lemma join_split (s : JsString) : join sep (split sep s) = s.
Proof.
  induction s as [|c s IH]; simpl; [done|].
  pose proof (split_nonempty s) as Hne.
  destruct (N.eqb_spec c sep) as [->|Hc].
  - destruct (split sep s) as [|tok rest]; [done|].
    by rewrite <- IH.
  - destruct (split sep s) as [|tok rest]; [done|].
    by rewrite join_cons_head, IH.
Qed.

(** No piece contains the separator. *)
Lemma split_no_sep (s : JsString) : Forall (fun tok => sep ∉ tok) (split sep s).
Proof.
  induction s as [|c s IH]; simpl.
  - constructor; [apply not_elem_of_nil | constructor].
  - destruct (N.eqb_spec c sep) as [->|Hc].
    + constructor; [apply not_elem_of_nil | done].
    + pose proof (split_nonempty s) as Hne.
      destruct (split sep s) as [|tok rest]; [done|].
      apply Forall_cons in IH as [Htok Hrest]. constructor; [|done].
      intros Hin. apply elem_of_cons in Hin as [?|?]; [congruence | done].
Qed.

(** A separator cuts the string: the pieces before it, then those after. *)
Lemma split_app (s1 s2 : JsString) :
  split sep (s1 ++ sep :: s2) = split sep s1 ++ split sep s2.
Proof.
  induction s1 as [|c s1 IH]; simpl.
  - by rewrite N.eqb_refl.
  - destruct (c =? sep)%N; [by rewrite IH|].
    rewrite IH. pose proof (split_nonempty s1).
    by destruct (split sep s1).
Qed.

(** The pieces are one more than the separators. *)
Lemma split_length (s : JsString) :
  length (split sep s) = S (length (List.filter (N.eqb sep) s)).
Proof.
  induction s as [|c s IH]; simpl; [done|].
  rewrite (N.eqb_sym sep c).
  destruct (c =? sep)%N; simpl; [by rewrite IH|].
  pose proof (split_nonempty s). destruct (split sep s); [done|]. by simpl in *.
Qed.
End Split.

Lemma parseMccAllow_keepNumeric (value : JsString) :
  parseMccAllow value = keepNumeric (split 44 value).
Proof.
  unfold parseMccAllow. induction (split 44 value) as [|tok rest IH]; simpl; [done|].
  rewrite IH. by destruct (Number (trim tok)).
Qed.

Lemma parseMccAllow_app (s1 s2 : JsString) :
  parseMccAllow (s1 ++ 44%N :: s2) = parseMccAllow s1 ++ parseMccAllow s2.
Proof.
  unfold parseMccAllow. by rewrite split_app, List.map_app, List.filter_app.
Qed.

Lemma parseMccAllow_empty : parseMccAllow [] = [of_Z 0].
Proof. reflexivity. Qed.

(** *** Plain decimal codes are numbers *)

Lemma digit_not_space (c : N) : isDecimalDigit c = true -> isWhiteSpace c = false.
Proof.
  unfold isDecimalDigit, isWhiteSpace. intros H.
  apply andb_true_iff in H as [H1 H2].
  apply N.leb_le in H1. apply N.leb_le in H2. cbn [existsb].
  rewrite !(proj2 (N.eqb_neq c _)) by lia. simpl.
  destruct (N.leb_spec 8192 c); [lia | done].
Qed.

Lemma trimStart_digits (s : JsString) :
  forallb isDecimalDigit s = true -> trimStart s = s.
Proof.
  destruct s as [|c s]; simpl; [done|]. intros H.
  apply andb_true_iff in H as [Hc _]. by rewrite (digit_not_space c Hc).
Qed.

Lemma trim_digits (s : JsString) :
  forallb isDecimalDigit s = true -> trim s = s.
Proof.
  intros H. unfold trim, trimEnd. rewrite (trimStart_digits s H).
  rewrite trimStart_digits; [apply rev_involutive|].
  apply forallb_forall. intros c Hc. apply in_rev in Hc.
  by apply (proj1 (forallb_forall _ _) H).
Qed.

Lemma digits_all (s : JsString) :
  forallb isDecimalDigit s = true ->
  digits 10 s = (List.map (fun c => c - 48)%N s, []).
Proof.
  induction s as [|c s IH]; simpl; [done|]. intros H.
  apply andb_true_iff in H as [Hc Hs]. rewrite (IH Hs).
  unfold digitValue. unfold isDecimalDigit in Hc. rewrite Hc.
  apply andb_true_iff in Hc as [H1 H2].
  apply N.leb_le in H1. apply N.leb_le in H2.
  destruct (N.ltb_spec (c - 48) 10); [done | lia].
Qed.

Lemma scale10_integer (m : N) : scale10 m 0 = inject_Z (Z.of_N m).
Proof.
  unfold scale10. simpl. rewrite Z.mul_1_r.
  apply Qcanon.Qred_identity. simpl. apply Z.gcd_1_r.
Qed.

(** A piece made of decimal digits only is read as the number they write. *)
Lemma Number_decimal_digits (s : JsString) :
  s <> [] -> forallb isDecimalDigit s = true ->
  Number s = of_Z (Z.of_N (decimalValue s)).
Proof.
  intros Hne Hall. unfold Number. rewrite (trim_digits s Hall).
  destruct s as [|c s]; [done|].
  pose proof Hall as Hall'. simpl in Hall'.
  apply andb_true_iff in Hall' as [Hc Hs].
  pose proof Hc as Hc'. unfold isDecimalDigit in Hc'.
  apply andb_true_iff in Hc' as [Hc1 Hc2].
  apply N.leb_le in Hc1. apply N.leb_le in Hc2.
  assert (strDecimalLiteral (c :: s) = of_Z (Z.of_N (decimalValue (c :: s)))) as Hdec.
  { unfold strDecimalLiteral.
    destruct (N.eqb_spec c 43); [lia|]. destruct (N.eqb_spec c 45); [lia|].
    unfold strUnsignedDecimalLiteral.
    assert (str_eqb (c :: s) (lit "Infinity") = false) as ->.
    { apply str_eqb_neq. intros [= Hc73 _]. lia. }
    rewrite (digits_all (c :: s) Hall). rewrite app_nil_r.
    cbn [List.map length exponentPart Z.of_nat Z.sub Z.opp Z.add].
    by rewrite scale10_integer. }
  unfold strNumericLiteral. destruct s as [|c1 s]; [done|].
  simpl in Hs. apply andb_true_iff in Hs as [Hc1' _].
  unfold isDecimalDigit in Hc1'. apply andb_true_iff in Hc1' as [Hd1 Hd2].
  apply N.leb_le in Hd1. apply N.leb_le in Hd2.
  assert (nonDecimalRadix c1 = None) as Hrad.
  { unfold nonDecimalRadix.
    by rewrite !(proj2 (N.eqb_neq c1 _)) by lia. }
  rewrite Hrad. by destruct (c =? 48)%N.
Qed.

(** Such a piece is kept by the field. *)
Lemma parseMccAllow_single_code (s : JsString) :
  s <> [] -> forallb isDecimalDigit s = true ->
  parseMccAllow s = [of_Z (Z.of_N (decimalValue s))].
Proof.
  intros Hne Hall.
  assert (split 44 s = [s]) as Hsplit.
  { clear Hne. induction s as [|c s IH]; simpl; [done|].
    simpl in Hall. apply andb_true_iff in Hall as [Hc Hs].
    unfold isDecimalDigit in Hc. apply andb_true_iff in Hc as [H1 H2].
    apply N.leb_le in H1. apply N.leb_le in H2.
    destruct (N.eqb_spec c 44); [lia|]. by rewrite (IH Hs). }
  unfold parseMccAllow. rewrite Hsplit. simpl.
  rewrite (trim_digits s Hall), (Number_decimal_digits s Hne Hall). done.
Qed.

(** C6: the value of the field is computed for every text, with no failure:
    the text is cut at its commas (the pieces joined by commas give the text
    back and contain no comma), each piece whose trimmed text [Number] turns
    into NaN is left out, and the numbers of the other pieces are kept in
    order; the draft's allowlist is set to that list. *)
Theorem mcc_parse_drops_non_numeric_tokens (value : JsString) :
  join 44 (split 44 value) = value /\
  Forall (fun tok => 44%N ∉ tok) (split 44 value) /\
  parseMccAllow value = keepNumeric (split 44 value) /\
  Forall (fun n => isNaN n = false) (parseMccAllow value) /\
  parseMccAllow value
    `sublist_of` List.map (fun tok => Number (trim tok)) (split 44 value) /\
  forall draft : Policy.t,
    Policy.mccAllow (onChangeMccAllow value draft) = Some (parseMccAllow value).
Proof.
  split; [apply join_split|]. split; [apply split_no_sep|].
  split; [apply parseMccAllow_keepNumeric|]. split; [|split].
  - unfold parseMccAllow. eapply Forall_impl; [apply filter_Forall|].
    intros n Hn. by apply negb_true_iff.
  - apply filter_sublist.
  - done.
Qed.

Example mcc_parse_example :
  parseMccAllow (lit "5541, abc,5542x ,0x1F, 7538 ,1e3")
  = [of_Z 5541; of_Z 31; of_Z 7538; of_Z 1000].
Proof. vm_compute. reflexivity. Qed.

(** C9: an empty piece counts as the number 0 and is kept.  The empty text
    gives [0]; a trailing comma adds a 0 at the end, a leading comma one at
    the front, and a doubled comma one between the entries of the text before
    it and those of the text after it. *)
Theorem mcc_parse_empty_token_is_zero :
  parseMccAllow [] = [of_Z 0] /\
  (forall s, parseMccAllow (s ++ [44%N]) = parseMccAllow s ++ [of_Z 0]) /\
  (forall s, parseMccAllow (44%N :: s) = of_Z 0 :: parseMccAllow s) /\
  (forall s1 s2,
      parseMccAllow (s1 ++ 44%N :: 44%N :: s2)
      = parseMccAllow s1 ++ of_Z 0 :: parseMccAllow s2).
Proof.
  split; [reflexivity|]. split; [|split].
  - intros s. by rewrite parseMccAllow_app, parseMccAllow_empty.
  - intros s. change (44%N :: s) with ([] ++ 44%N :: s).
    by rewrite parseMccAllow_app, parseMccAllow_empty.
  - intros s1 s2. rewrite parseMccAllow_app.
    change (44%N :: s2) with ([] ++ 44%N :: s2).
    by rewrite parseMccAllow_app, parseMccAllow_empty.
Qed.

Example mcc_parse_cleared_field : parseMccAllow (lit "") = [of_Z 0].
Proof. reflexivity. Qed.

Example mcc_parse_trailing_comma :
  parseMccAllow (lit "5541,5542,") = [of_Z 5541; of_Z 5542; of_Z 0].
Proof. vm_compute. reflexivity. Qed.

Example mcc_parse_doubled_comma :
  parseMccAllow (lit "5541,,5542") = [of_Z 5541; of_Z 0; of_Z 5542].
Proof. vm_compute. reflexivity. Qed.

(* ===================================================================== *)
(** * Part III: further properties of the code *)
(* ===================================================================== *)

(** ** Saving, once more *)

Lemma handleSavePolicy_twice (p : Policy.t) (prev : list Policy.t) :
  handleSavePolicy p (handleSavePolicy p prev) = handleSavePolicy p prev.
Proof.
  destruct (handleSavePolicy_cases p prev)
    as [[-> Hnone]|(i & x & -> & Hi & Hid & Hbefore)].
  - rewrite (handleSavePolicy_replace_first p (p :: prev) 0%nat p); try done.
    intros j y Hj. lia.
  - assert (i < length prev)%nat as Hlen by (by apply lookup_lt_Some in Hi).
    rewrite (handleSavePolicy_replace_first p (<[i := p]> prev) i p).
    + apply list_insert_insert_eq.
    + by apply list_lookup_insert_eq.
    + done.
    + intros j y Hj Hy. rewrite list_lookup_insert_ne in Hy by lia.
      by apply (Hbefore j y).
Qed.

(** X1: saving the same policy again changes nothing. *)
Theorem handleSavePolicy_idempotent (p : Policy.t) (prev : list Policy.t) :
  handleSavePolicy p (handleSavePolicy p prev) = handleSavePolicy p prev.
Proof. apply handleSavePolicy_twice. Qed.

(** X2: after a save, looking a policy up by the saved id finds the saved
    policy, and a lookup by any other id finds what it found before. *)
Theorem handleSavePolicy_lookup (p : Policy.t) (prev : list Policy.t) :
  findPolicy (Policy.id p) (handleSavePolicy p prev) = Some p /\
  forall id, id <> Policy.id p ->
    findPolicy id (handleSavePolicy p prev) = findPolicy id prev.
Proof.
  unfold findPolicy.
  destruct (handleSavePolicy_cases p prev)
    as [[-> Hnone]|(i & x & -> & Hi & Hid & Hbefore)].
  - split; [simpl; by rewrite str_eqb_refl|].
    intros id Hne. simpl.
    by rewrite (proj2 (str_eqb_neq (Policy.id p) id)) by done.
  - assert (i < length prev)%nat as Hlen by (by apply lookup_lt_Some in Hi).
    split.
    + apply (find_first _ _ i p).
      * by apply list_lookup_insert_eq.
      * apply str_eqb_refl.
      * intros j y Hj Hy. rewrite list_lookup_insert_ne in Hy by lia.
        apply str_eqb_neq. by apply (Hbefore j y).
    + intros id Hne. apply (find_insert_irrelevant _ prev i x p Hi).
      * apply str_eqb_neq. congruence.
      * apply str_eqb_neq. congruence.
Qed.

Lemma handleSavePolicy_lookup_witness :
  findPolicy (lit "P-2") (handleSavePolicy editedP2 mockPolicies) = Some editedP2 /\
  findPolicy (lit "P-1") (handleSavePolicy editedP2 mockPolicies)
  = findPolicy (lit "P-1") mockPolicies.
Proof.
  split.
  - exact (proj1 (handleSavePolicy_lookup editedP2 mockPolicies)).
  - apply (proj2 (handleSavePolicy_lookup editedP2 mockPolicies)).
    vm_compute. discriminate.
Defined.

(** X3: a save keeps the stored ids in their order: when the saved id is
    already stored the list of ids is unchanged, otherwise the saved id is
    put in front of it.  No id is ever removed. *)
Theorem handleSavePolicy_ids (p : Policy.t) (prev : list Policy.t) :
  (Policy.id p ∈ List.map Policy.id prev ->
   List.map Policy.id (handleSavePolicy p prev) = List.map Policy.id prev) /\
  (Policy.id p ∉ List.map Policy.id prev ->
   List.map Policy.id (handleSavePolicy p prev)
   = Policy.id p :: List.map Policy.id prev).
Proof.
  destruct (handleSavePolicy_cases p prev)
    as [[-> Hnone]|(i & x & -> & Hi & Hid & Hbefore)].
  - split; [|done]. intros Hin.
    apply list_elem_of_In, in_map_iff in Hin as (y & Hy & Hin).
    apply list_elem_of_In in Hin. by destruct (Hnone y Hin).
  - assert (List.map Policy.id (<[i := p]> prev) = List.map Policy.id prev) as E.
    { rewrite map_fmap, list_fmap_insert, <- Hid, list_insert_id; [done|].
      by rewrite list_lookup_fmap, Hi. }
    split; [done|]. intros Hnot. destruct Hnot.
    rewrite <- Hid. apply elem_of_map. apply list_elem_of_lookup. by exists i.
Qed.

Lemma handleSavePolicy_ids_witness :
  List.map Policy.id (handleSavePolicy editedP2 mockPolicies)
  = List.map Policy.id mockPolicies /\
  List.map Policy.id (handleSavePolicy (save initialDraft 1700000000000) mockPolicies)
  = Policy.id (save initialDraft 1700000000000) :: List.map Policy.id mockPolicies.
Proof.
  split.
  - apply (proj1 (handleSavePolicy_ids editedP2 mockPolicies)).
    apply (bool_decide_unpack _). vm_compute. reflexivity.
  - apply (proj2 (handleSavePolicy_ids (save initialDraft 1700000000000) mockPolicies)).
    apply (bool_decide_unpack _). vm_compute. reflexivity.
Defined.

(** X4: a save keeps the stored ids pairwise distinct. *)
Theorem handleSavePolicy_keeps_ids_distinct (p : Policy.t) (prev : list Policy.t) :
  NoDup (List.map Policy.id prev) ->
  NoDup (List.map Policy.id (handleSavePolicy p prev)).
Proof. apply handleSavePolicy_NoDup. Qed.

Lemma handleSavePolicy_keeps_ids_distinct_witness :
  NoDup (List.map Policy.id (handleSavePolicy editedP2 mockPolicies)).
Proof.
  apply handleSavePolicy_keeps_ids_distinct.
  apply (bool_decide_unpack _). vm_compute. reflexivity.
Defined.

(** The policy [save] hands over never has the placeholder id. *)
Lemma save_id_not_new (draft : Policy.t) (now : Z) :
  Policy.id (save draft now) <> lit "new".
Proof.
  destruct (decide (Policy.id draft = lit "new")) as [Hnew|Hne].
  - rewrite (save_id_new draft now Hnew). apply mintId_not_new.
  - by rewrite (save_id_other draft now Hne).
Qed.

(** X5: the draft keeps the id "new" after it is saved, so saving a new
    draft again at a later clock reading stores a second copy in front of
    the first; at the same clock reading it stores nothing more. *)
Theorem save_new_draft_twice (draft : Policy.t) (now1 now2 : Z)
    (prev : list Policy.t) :
  Policy.id draft = lit "new" ->
  (forall x, x ∈ prev -> Policy.id x <> mintId now1) ->
  (forall x, x ∈ prev -> Policy.id x <> mintId now2) ->
  (now1 <> now2 ->
   clickSave draft now2 (clickSave draft now1 prev)
   = save draft now2 :: save draft now1 :: prev) /\
  clickSave draft now1 (clickSave draft now1 prev) = save draft now1 :: prev.
Proof.
  intros Hnew H1 H2. unfold clickSave.
  assert (handleSavePolicy (save draft now1) prev = save draft now1 :: prev) as E1.
  { apply handleSavePolicy_prepend. intros x Hx.
    rewrite (save_id_new draft now1 Hnew). by apply H1. }
  split.
  - intros Hne. rewrite E1. apply handleSavePolicy_prepend.
    intros x Hx. rewrite (save_id_new draft now2 Hnew).
    apply elem_of_cons in Hx as [->|Hx]; [|by apply H2].
    rewrite (save_id_new draft now1 Hnew). intros Heq.
    apply mintId_inj in Heq. congruence.
  - by rewrite handleSavePolicy_twice.
Qed.

Lemma save_new_draft_twice_witness :
  clickSave initialDraft 1700000000001 (clickSave initialDraft 1700000000000 mockPolicies)
  = save initialDraft 1700000000001 :: save initialDraft 1700000000000 :: mockPolicies.
Proof.
  refine (proj1 (save_new_draft_twice initialDraft 1700000000000 1700000000001
                   mockPolicies _ _ _) _).
  - reflexivity.
  - intros x Hx. apply list_elem_of_In in Hx. simpl in Hx.
    destruct Hx as [<-|[<-|[]]]; vm_compute; discriminate.
  - intros x Hx. apply list_elem_of_In in Hx. simpl in Hx.
    destruct Hx as [<-|[<-|[]]]; vm_compute; discriminate.
  - discriminate.
Defined.

(** ** The form of the policy editor *)

(** [update] sets the named field and no other. *)
Lemma update_get_same (key : PolicyKey) (value : PolicyValue key) (d : Policy.t) :
  Policy_get key (update key value d) = value.
Proof. by destruct key. Qed.

Lemma update_get_other (key key' : PolicyKey) (value : PolicyValue key)
    (d : Policy.t) :
  key <> key' -> Policy_get key' (update key value d) = Policy_get key' d.
Proof. by destruct key, key'. Qed.

Lemma onChangeMccAllow_update (value : JsString) (draft : Policy.t) :
  onChangeMccAllow value draft = onChange (ChangeMccAllow value) draft.
Proof. reflexivity. Qed.

Lemma onChanges_cons (c : FormChange) (cs : list FormChange) (d : Policy.t) :
  onChanges (c :: cs) d = onChanges cs (onChange c d).
Proof. reflexivity. Qed.

Lemma onChange_id (c : FormChange) (d : Policy.t) :
  Policy.id (onChange c d) = Policy.id d.
Proof. by destruct c. Qed.

Lemma onChanges_id (cs : list FormChange) (d : Policy.t) :
  Policy.id (onChanges cs d) = Policy.id d.
Proof.
  revert d. induction cs as [|c cs IH]; intros d; [done|].
  by rewrite onChanges_cons, IH, onChange_id.
Qed.

(** X6: a stored policy loaded into the form, changed by any run of form
    changes and saved, overwrites the stored policy at its position; the
    number of stored policies does not change. *)
Theorem edit_then_save_in_place (prev : list Policy.t) (i : nat) (p : Policy.t)
    (cs : list FormChange) (now : Z) :
  NoDup (List.map Policy.id prev) ->
  prev !! i = Some p -> Policy.id p <> lit "new" ->
  clickSave (onChanges cs p) now prev = <[i := onChanges cs p]> prev /\
  length (clickSave (onChanges cs p) now prev) = length prev.
Proof.
  intros Hnd Hi Hne. unfold clickSave.
  rewrite save_id_other by (by rewrite onChanges_id).
  rewrite (handleSavePolicy_replace_first _ prev i p Hi).
  - split; [done | apply length_insert].
  - by rewrite onChanges_id.
  - rewrite onChanges_id. by apply (NoDup_ids_first prev i p).
Qed.

Lemma edit_then_save_in_place_witness :
  clickSave (onChanges sampleChanges editedP2) 1700000000000
    (handleSavePolicy editedP2 mockPolicies)
  = <[1%nat := onChanges sampleChanges editedP2]>
      (handleSavePolicy editedP2 mockPolicies).
Proof.
  refine (proj1 (edit_then_save_in_place (handleSavePolicy editedP2 mockPolicies)
                   1%nat editedP2 sampleChanges 1700000000000 _ _ _)).
  - apply (bool_decide_unpack _). vm_compute. reflexivity.
  - reflexivity.
  - vm_compute. discriminate.
Defined.

(** X7: a draft with the placeholder id, changed by any run of form changes
    and saved at a clock reading whose minted id is not stored, is put in
    front of the stored policies under the minted id. *)
Theorem new_draft_save_prepends (draft : Policy.t) (cs : list FormChange)
    (now : Z) (prev : list Policy.t) :
  Policy.id draft = lit "new" ->
  (forall x, x ∈ prev -> Policy.id x <> mintId now) ->
  clickSave (onChanges cs draft) now prev
  = Policy.with_id (mintId now) (onChanges cs draft) :: prev.
Proof.
  intros Hnew Hfresh. unfold clickSave.
  assert (Policy.id (onChanges cs draft) = lit "new") as Hnew'
    by (by rewrite onChanges_id).
  assert (save (onChanges cs draft) now
          = Policy.with_id (mintId now) (onChanges cs draft)) as ->.
  { unfold save. rewrite Hnew'. by rewrite str_eqb_refl. }
  apply handleSavePolicy_prepend. intros x Hx. simpl. by apply Hfresh.
Qed.

Lemma new_draft_save_prepends_witness :
  clickSave (onChanges sampleChanges initialDraft) 1700000000000 mockPolicies
  = Policy.with_id (mintId 1700000000000) (onChanges sampleChanges initialDraft)
    :: mockPolicies.
Proof.
  apply new_draft_save_prepends.
  - reflexivity.
  - intros x Hx. apply list_elem_of_In in Hx. simpl in Hx.
    destruct Hx as [<-|[<-|[]]]; vm_compute; discriminate.
Defined.

(** X8: the form has no way to change the id or the MCC block list of the
    draft, nor to clear a geofence centre, a geofence radius or an MCC
    allowlist that is set. *)
Theorem form_changes_never (cs : list FormChange) (d : Policy.t) :
  Policy.id (onChanges cs d) = Policy.id d /\
  Policy.mccBlock (onChanges cs d) = Policy.mccBlock d /\
  (is_Some (Policy.geofenceCenter d) ->
   is_Some (Policy.geofenceCenter (onChanges cs d))) /\
  (is_Some (Policy.geofenceRadiusKm d) ->
   is_Some (Policy.geofenceRadiusKm (onChanges cs d))) /\
  (is_Some (Policy.mccAllow d) -> is_Some (Policy.mccAllow (onChanges cs d))).
Proof.
  revert d. induction cs as [|c cs IH]; intros d; [done|].
  rewrite onChanges_cons.
  destruct (IH (onChange c d)) as (Hid & Hblock & Hcenter & Hradius & Hallow).
  split; [by rewrite Hid, onChange_id|].
  split; [rewrite Hblock; by destruct c|].
  split; [|split]; intros Hsome.
  - apply Hcenter. destruct c; simpl; done || by eexists.
  - apply Hradius. destruct c; simpl; done || by eexists.
  - apply Hallow. destruct c; simpl; done || by eexists.
Qed.

Lemma form_changes_never_witness :
  is_Some (Policy.geofenceCenter (onChanges sampleChanges initialDraft)).
Proof.
  apply (proj1 (proj2 (proj2 (form_changes_never sampleChanges initialDraft)))).
  by eexists.
Defined.

(** X9: changing the latitude of a draft without a geofence centre creates
    the centre with longitude 0, and changing the longitude creates it with
    latitude 0; on a draft with a centre each change keeps the other
    coordinate. *)
Theorem geofence_change_other_coordinate (value : JsString) (d : Policy.t) :
  (Policy.geofenceCenter d = None ->
   Policy.geofenceCenter (onChange (ChangeGeofenceLat value) d)
   = Some {| lat := Number value; lng := of_Z 0 |} /\
   Policy.geofenceCenter (onChange (ChangeGeofenceLng value) d)
   = Some {| lat := of_Z 0; lng := Number value |}) /\
  (forall c, Policy.geofenceCenter d = Some c ->
   Policy.geofenceCenter (onChange (ChangeGeofenceLat value) d)
   = Some {| lat := Number value; lng := lng c |} /\
   Policy.geofenceCenter (onChange (ChangeGeofenceLng value) d)
   = Some {| lat := lat c; lng := Number value |}).
Proof.
  split.
  - intros Hnone. simpl. unfold centerLngOr0, centerLatOr0. by rewrite Hnone.
  - intros c Hc. simpl. unfold centerLngOr0, centerLatOr0. by rewrite Hc.
Qed.

Lemma geofence_change_other_coordinate_witness :
  Policy.geofenceCenter (onChange (ChangeGeofenceLat (lit "-33.9")) noCenterDraft)
  = Some {| lat := Number (lit "-33.9"); lng := of_Z 0 |}.
Proof.
  apply (proj1 (geofence_change_other_coordinate (lit "-33.9") noCenterDraft)).
  reflexivity.
Defined.

Lemma parseMccAllow_no_NaN (value : JsString) :
  Forall (fun n => isNaN n = false) (parseMccAllow value).
Proof.
  unfold parseMccAllow. eapply Forall_impl; [apply filter_Forall|].
  intros n Hn. by apply negb_true_iff.
Qed.

Lemma onChange_no_NaN (c : FormChange) (d : Policy.t) :
  allowlistHasNoNaN d -> allowlistHasNoNaN (onChange c d).
Proof.
  unfold allowlistHasNoNaN. destruct c; simpl; try done.
  intros _. apply parseMccAllow_no_NaN.
Qed.

(** X10: no run of form changes puts a NaN into the draft's MCC allowlist:
    a draft whose allowlist holds none keeps that through every change. *)
Theorem form_changes_keep_allowlist_free_of_NaN (cs : list FormChange)
    (d : Policy.t) :
  allowlistHasNoNaN d -> allowlistHasNoNaN (onChanges cs d).
Proof.
  revert d. induction cs as [|c cs IH]; intros d Hd; [done|].
  rewrite onChanges_cons. by apply IH, onChange_no_NaN.
Qed.

Lemma form_changes_keep_allowlist_free_of_NaN_witness :
  allowlistHasNoNaN (onChanges sampleChanges initialDraft).
Proof.
  apply form_changes_keep_allowlist_free_of_NaN.
  unfold allowlistHasNoNaN. simpl. by repeat constructor.
Defined.

(** ** Triage and the views of the queue *)

Lemma hasStatus_eq (s : Status) (e : ExceptionItem.t) :
  hasStatus s e = true <-> ExceptionItem.status e = s.
Proof. unfold hasStatus. destruct s, (ExceptionItem.status e); split; congruence. Qed.

(** The view of one status keeps exactly the items of that status. *)
Lemma filtered_hasStatus (s : Status) (l : list ExceptionItem.t) :
  filtered l (StatusFilter_of s) = List.filter (hasStatus s) l.
Proof.
  unfold filtered. apply List.filter_ext. intros e.
  unfold hasStatus. by destruct s, (ExceptionItem.status e).
Qed.

Lemma openExceptions_hasStatus (l : list ExceptionItem.t) :
  openExceptions l = length (List.filter (hasStatus Open) l).
Proof.
  unfold openExceptions. f_equal. apply List.filter_ext. intros e.
  unfold hasStatus. by destruct (ExceptionItem.status e).
Qed.

(** X11: a click on an id overrides an earlier click on the same id: the two
    clicks leave the collection as the later click alone would, so clicking
    the same decision twice is the same as clicking it once. *)
Theorem triage_last_click_wins (id : JsString) (a1 a2 : Action)
    (prev : list ExceptionItem.t) :
  handleExceptionAction id a2 (handleExceptionAction id a1 prev)
  = handleExceptionAction id a2 prev.
Proof.
  unfold handleExceptionAction. rewrite List.map_map.
  apply List.map_ext. intros e.
  destruct (str_eqb (ExceptionItem.id e) id) eqn:E; simpl; by rewrite E.
Qed.

(** X12: clicks on two different ids can be swapped. *)
Theorem triage_clicks_commute (id1 id2 : JsString) (a1 a2 : Action)
    (prev : list ExceptionItem.t) :
  id1 <> id2 ->
  handleExceptionAction id1 a1 (handleExceptionAction id2 a2 prev)
  = handleExceptionAction id2 a2 (handleExceptionAction id1 a1 prev).
Proof.
  intros Hne. unfold handleExceptionAction. rewrite !List.map_map.
  apply List.map_ext. intros e.
  destruct (str_eqb (ExceptionItem.id e) id1) eqn:E1,
           (str_eqb (ExceptionItem.id e) id2) eqn:E2; simpl;
    rewrite ?E1, ?E2; try done.
  apply str_eqb_eq in E1, E2. congruence.
Qed.

Lemma triage_clicks_commute_witness :
  handleExceptionAction (lit "E-9001") ActDenied
    (handleExceptionAction (lit "E-9003") ActApproved sampleQueue)
  = handleExceptionAction (lit "E-9003") ActApproved
      (handleExceptionAction (lit "E-9001") ActDenied sampleQueue).
Proof. apply triage_clicks_commute. vm_compute. discriminate. Defined.

(** X13: the views "Open", "Approved" and "Denied" split the queue: every
    item is in the view of its status, and the three views together have as
    many items as the queue. *)
Theorem filtered_views_partition (exceptions : list ExceptionItem.t) :
  (forall e, e ∈ exceptions ->
     e ∈ filtered exceptions (StatusFilter_of (ExceptionItem.status e))) /\
  (length (filtered exceptions FilterOpen)
   + length (filtered exceptions FilterApproved)
   + length (filtered exceptions FilterDenied)
   = length exceptions)%nat.
Proof.
  split.
  - intros e He. rewrite filtered_hasStatus.
    apply list_elem_of_In, filter_In. split; [by apply list_elem_of_In|].
    by apply hasStatus_eq.
  - rewrite (filtered_hasStatus Open), (filtered_hasStatus Approved),
      (filtered_hasStatus Denied).
    induction exceptions as [|e l IH]; [done|]. simpl.
    destruct (hasStatus Open e) eqn:Ho, (hasStatus Approved e) eqn:Ha,
             (hasStatus Denied e) eqn:Hd; simpl;
      unfold hasStatus in Ho, Ha, Hd;
      destruct (ExceptionItem.status e); try discriminate; simpl; lia.
Qed.

Lemma filtered_views_partition_witness :
  openItem ∈ filtered sampleQueue (StatusFilter_of (ExceptionItem.status openItem)).
Proof.
  apply (proj1 (filtered_views_partition sampleQueue)).
  apply list_elem_of_In. simpl. auto.
Defined.

(** The items still open after a click: those that were, of another id. *)
Lemma open_items_after_click (id : JsString) (action : Action)
    (prev : list ExceptionItem.t) :
  List.filter (hasStatus Open) (handleExceptionAction id action prev)
  = List.filter (otherId id) (List.filter (hasStatus Open) prev).
Proof.
  unfold handleExceptionAction, otherId.
  induction prev as [|e l IH]; [done|]. cbn [List.map List.filter].
  rewrite IH. destruct (str_eqb (ExceptionItem.id e) id) eqn:E.
  - assert (hasStatus Open (ExceptionItem.with_status (Action_status action) e)
            = false) as -> by (by destruct action).
    destruct (hasStatus Open e); cbn [List.filter]; by rewrite ?E.
  - destruct (hasStatus Open e); cbn [List.filter]; by rewrite ?E.
Qed.

(** X14: after a click on an id the "Open" view is the previous "Open" view
    without the items of that id, and each item of that id is then in the
    view of the decision. *)
Theorem triage_moves_item_between_views (id : JsString) (action : Action)
    (prev : list ExceptionItem.t) :
  filtered (handleExceptionAction id action prev) FilterOpen
  = List.filter (otherId id) (filtered prev FilterOpen) /\
  forall e, e ∈ prev -> ExceptionItem.id e = id ->
    ExceptionItem.with_status (Action_status action) e
    ∈ filtered (handleExceptionAction id action prev)
        (StatusFilter_of (Action_status action)).
Proof.
  split.
  - rewrite !(filtered_hasStatus Open). apply open_items_after_click.
  - intros e He Hid. rewrite filtered_hasStatus.
    apply list_elem_of_In, filter_In. split.
    + apply list_elem_of_In.
      pose proof (elem_of_map
                    (fun e0 => if str_eqb (ExceptionItem.id e0) id
                               then ExceptionItem.with_status (Action_status action) e0
                               else e0) prev e He) as Hin.
      simpl in Hin. by rewrite (proj2 (str_eqb_eq _ _) Hid) in Hin.
    + by apply hasStatus_eq.
Qed.

Lemma triage_moves_item_between_views_witness :
  ExceptionItem.with_status (Action_status ActApproved) openItem
  ∈ filtered (handleExceptionAction (lit "E-9003") ActApproved sampleQueue)
      (StatusFilter_of (Action_status ActApproved)).
Proof.
  apply (proj2 (triage_moves_item_between_views (lit "E-9003") ActApproved sampleQueue)).
  - apply list_elem_of_In. simpl. auto.
  - reflexivity.
Defined.

Lemma filter_length_le {A : Type} (f : A -> bool) (l : list A) :
  (length (List.filter f l) <= length l)%nat.
Proof.
  induction l as [|x l IH]; simpl; [lia|]. destruct (f x); simpl; lia.
Qed.

Lemma openExceptions_click (id : JsString) (action : Action)
    (prev : list ExceptionItem.t) :
  (openExceptions (handleExceptionAction id action prev) <= openExceptions prev)%nat.
Proof.
  rewrite !openExceptions_hasStatus, open_items_after_click.
  apply filter_length_le.
Qed.

(** X15: the "Open Exceptions" tile shows the size of the "Open" view of
    the table, and no run of triage clicks makes it larger. *)
Theorem openExceptions_never_grows (clicks : list (JsString * Action))
    (prev : list ExceptionItem.t) :
  openExceptions prev = length (filtered prev FilterOpen) /\
  (openExceptions (triageRun clicks prev) <= openExceptions prev)%nat.
Proof.
  split; [by rewrite openExceptions_hasStatus, (filtered_hasStatus Open)|].
  revert prev. induction clicks as [|c clicks IH]; intros prev; [done|].
  rewrite triageRun_cons. etrans; [apply IH|]. apply openExceptions_click.
Qed.

(** ** White space around the pieces of the MCC field *)

Lemma trimStart_idem (s : JsString) : trimStart (trimStart s) = trimStart s.
Proof.
  induction s as [|c s IH]; [done|]. simpl.
  destruct (isWhiteSpace c) eqn:E; [done|]. simpl. by rewrite E.
Qed.

Lemma trimStart_head (s : JsString) :
  trimStart s = [] \/
  exists c t, trimStart s = c :: t /\ isWhiteSpace c = false.
Proof.
  induction s as [|c s IH]; [by left|]. simpl.
  destruct (isWhiteSpace c) eqn:E; [done|]. right. by exists c, s.
Qed.

Lemma trimStart_spaces (ws s : JsString) :
  forallb isWhiteSpace ws = true -> trimStart (ws ++ s) = trimStart s.
Proof.
  induction ws as [|c ws IH]; [done|]. simpl. intros H.
  apply andb_true_iff in H as [Hc Hws]. rewrite Hc. by apply IH.
Qed.

Lemma trimStart_snoc (l : JsString) (c : N) :
  isWhiteSpace c = false -> exists l', trimStart (l ++ [c]) = l' ++ [c].
Proof.
  intros Hc. induction l as [|x l IH]; simpl.
  - rewrite Hc. by exists [].
  - destruct (isWhiteSpace x); [done|]. by exists (x :: l).
Qed.

Lemma trimEnd_idem (s : JsString) : trimEnd (trimEnd s) = trimEnd s.
Proof. unfold trimEnd. by rewrite rev_involutive, trimStart_idem. Qed.

Lemma trimEnd_spaces (s ws : JsString) :
  forallb isWhiteSpace ws = true -> trimEnd (s ++ ws) = trimEnd s.
Proof.
  intros H. unfold trimEnd. rewrite rev_app_distr, trimStart_spaces; [done|].
  apply forallb_forall. intros c Hc. apply in_rev in Hc.
  by apply (proj1 (forallb_forall _ _) H).
Qed.

Lemma trimEnd_head (c : N) (t : JsString) :
  isWhiteSpace c = false -> exists t', trimEnd (c :: t) = c :: t'.
Proof.
  intros Hc. unfold trimEnd. simpl.
  destruct (trimStart_snoc (rev t) c Hc) as [l' ->].
  exists (rev l'). by rewrite rev_app_distr.
Qed.

Lemma trim_idem (s : JsString) : trim (trim s) = trim s.
Proof.
  unfold trim. destruct (trimStart_head s) as [->|(c & t & -> & Hc)]; [done|].
  destruct (trimEnd_head c t Hc) as [t' E]. rewrite E. simpl. rewrite Hc.
  by rewrite <- E, trimEnd_idem.
Qed.

Lemma trimStart_all_spaces (s : JsString) :
  forallb isWhiteSpace s = true -> trimStart s = [].
Proof.
  intros H. rewrite <- (app_nil_r s). by rewrite trimStart_spaces.
Qed.

Lemma trimStart_app (s ws : JsString) :
  forallb isWhiteSpace s = false -> trimStart (s ++ ws) = trimStart s ++ ws.
Proof.
  induction s as [|x s IH]; simpl; [done|].
  destruct (isWhiteSpace x); simpl; [apply IH | done].
Qed.

Lemma trim_spaces (ws1 ws2 s : JsString) :
  forallb isWhiteSpace ws1 = true -> forallb isWhiteSpace ws2 = true ->
  trim (ws1 ++ s ++ ws2) = trim s.
Proof.
  intros H1 H2. unfold trim. rewrite trimStart_spaces by done.
  destruct (forallb isWhiteSpace s) eqn:Hs.
  - rewrite (trimStart_all_spaces s Hs), trimStart_all_spaces; [done|].
    rewrite forallb_app. by rewrite Hs, H2.
  - rewrite trimStart_app by done. by apply trimEnd_spaces.
Qed.

(** X16: white space around a piece of the MCC field does not count: the
    piece is read as the piece without it, a piece of white space alone is
    read as 0, and the field computes what it would without its call of
    [trim], because [Number] skips that white space itself. *)
Theorem mcc_piece_ignores_white_space :
  (forall ws1 ws2 tok : JsString,
      forallb isWhiteSpace ws1 = true -> forallb isWhiteSpace ws2 = true ->
      Number (trim (ws1 ++ tok ++ ws2)) = Number (trim tok)) /\
  (forall ws : JsString,
      forallb isWhiteSpace ws = true -> Number (trim ws) = of_Z 0) /\
  (forall value : JsString,
      parseMccAllow value
      = List.filter (fun n => negb (isNaN n)) (List.map Number (split 44 value))).
Proof.
  split; [|split].
  - intros ws1 ws2 tok H1 H2. by rewrite trim_spaces.
  - intros ws H.
    assert (trim ws = []) as -> by (unfold trim; by rewrite trimStart_all_spaces).
    done.
  - intros value. unfold parseMccAllow. f_equal. apply List.map_ext.
    intros tok. unfold Number. by rewrite trim_idem.
Qed.

Lemma mcc_piece_ignores_white_space_witness :
  Number (trim (lit "  " ++ lit "5541" ++ lit " ")) = Number (trim (lit "5541")) /\
  Number (trim (lit "   ")) = of_Z 0.
Proof.
  split.
  - by apply (proj1 mcc_piece_ignores_white_space).
  - by apply (proj1 (proj2 mcc_piece_ignores_white_space)).
Defined.

(** ** The text the MCC field shows, typed back *)

Lemma lit_String (c : ascii) (s : string) : lit (String c s) = N_of_ascii c :: lit s.
Proof. reflexivity. Qed.

(** The characters of the numeral of a decimal [uint] are decimal digits. *)
Lemma uint_numeral_digits (d : Decimal.uint) :
  forallb isDecimalDigit (lit (NilEmpty.string_of_uint d)) = true.
Proof.
  induction d; cbn [NilEmpty.string_of_uint]; [done| ..];
    rewrite lit_String; cbn [forallb]; rewrite IHd; reflexivity.
Qed.

(** Reading the numeral from the left, after digits that gave [a]. *)
Lemma uint_numeral_acc (d : Decimal.uint) (a : positive) :
  fold_left (fun a k => a * 10 + k)%N
    (List.map (fun c => c - 48)%N (lit (NilEmpty.string_of_uint d))) (Npos a)
  = Npos (Pos.of_uint_acc d a).
Proof.
  revert a. induction d; intros a; cbn [NilEmpty.string_of_uint]; [done| ..];
    rewrite lit_String; cbn [List.map fold_left Pos.of_uint_acc];
    rewrite <- IHd; f_equal;
    match goal with
    | |- context [N_of_ascii ?c] =>
        let v := eval vm_compute in (N_of_ascii c - 48)%N in
        change (N_of_ascii c - 48)%N with v
    end; lia.
Qed.

Lemma uint_numeral_value (d : Decimal.uint) :
  fold_left (fun a k => a * 10 + k)%N
    (List.map (fun c => c - 48)%N (lit (NilEmpty.string_of_uint d))) 0%N
  = Pos.of_uint d.
Proof.
  induction d; cbn [NilEmpty.string_of_uint]; [done| ..];
    rewrite lit_String; cbn [List.map fold_left Pos.of_uint];
    match goal with
    | |- context [N_of_ascii ?c] =>
        let v := eval vm_compute in (0 * 10 + (N_of_ascii c - 48))%N in
        change (0 * 10 + (N_of_ascii c - 48))%N with v
    end; [exact IHd | apply uint_numeral_acc ..].
Qed.

Lemma String_of_int_numeral (n : N) :
  String_of_int (Z.of_N n) <> [] /\
  forallb isDecimalDigit (String_of_int (Z.of_N n)) = true /\
  decimalValue (String_of_int (Z.of_N n)) = n.
Proof.
  destruct n as [|p]; [by repeat split|].
  unfold String_of_int, decimalValue, digitsValue.
  change (Z.to_int (Z.of_N (Npos p))) with (Decimal.Pos (Pos.to_uint p)).
  pose proof (DecimalPos.Unsigned.to_uint_nonnil p) as Hnil.
  pose proof (DecimalPos.Unsigned.of_to p) as Hof.
  assert (NilZero.string_of_int (Decimal.Pos (Pos.to_uint p))
          = NilEmpty.string_of_uint (Pos.to_uint p)) as ->
    by (cbn [NilZero.string_of_int NilZero.string_of_uint];
        by destruct (Pos.to_uint p)).
  split; [|split].
  - destruct (Pos.to_uint p); cbn [NilEmpty.string_of_uint];
      rewrite ?lit_String; done.
  - apply uint_numeral_digits.
  - by rewrite uint_numeral_value.
Qed.

(** The numeral of a code is read back as the code. *)
Lemma Number_String_of_int (n : N) :
  Number (trim (String_of_int (Z.of_N n))) = of_Z (Z.of_N n).
Proof.
  destruct (String_of_int_numeral n) as (Hne & Hdig & Hval).
  by rewrite (trim_digits _ Hdig), (Number_decimal_digits _ Hne Hdig), Hval.
Qed.

Lemma numeral_no_comma (n : N) : 44%N ∉ String_of_int (Z.of_N n).
Proof.
  destruct (String_of_int_numeral n) as (_ & Hdig & _).
  intros Hin. apply list_elem_of_In in Hin.
  pose proof (proj1 (forallb_forall _ _) Hdig _ Hin) as H. done.
Qed.

Section SplitJoin.
Variable sep : N.

Lemma split_no_sep_piece (tok : JsString) : sep ∉ tok -> split sep tok = [tok].
Proof.
  induction tok as [|c tok IH]; [done|]. intros Hnot. simpl.
  destruct (N.eqb_spec c sep) as [->|Hc].
  - destruct Hnot. apply list_elem_of_here.
  - rewrite IH; [done|]. intros Hin. apply Hnot. by apply list_elem_of_further.
Qed.

(** Cutting a text made by joining pieces that hold no separator gives the
    pieces back. *)
Lemma split_join (toks : list JsString) :
  toks <> [] -> Forall (fun tok => sep ∉ tok) toks ->
  split sep (join sep toks) = toks.
Proof.
  induction toks as [|tok rest IH]; [done|]. intros _ Hall.
  apply Forall_cons in Hall as [Htok Hrest].
  destruct rest as [|tok2 rest]; [by apply split_no_sep_piece|].
  change (join sep (tok :: tok2 :: rest)) with (tok ++ sep :: join sep (tok2 :: rest)).
  rewrite split_app, (split_no_sep_piece tok Htok), IH; done.
Qed.

Lemma join_snoc (toks : list JsString) (tok : JsString) :
  toks <> [] -> join sep (toks ++ [tok]) = join sep toks ++ sep :: tok.
Proof.
  induction toks as [|t rest IH]; [done|]. intros _.
  destruct rest as [|t2 rest]; [done|].
  change (join sep ((t :: t2 :: rest) ++ [tok]))
    with (t ++ sep :: join sep ((t2 :: rest) ++ [tok])).
  rewrite IH by done. simpl. by rewrite <- app_assoc.
Qed.
End SplitJoin.

(** The shown text of a non-empty list of codes parses to the codes. *)
Lemma parse_shown_text (codes : list N) :
  codes <> [] -> parseMccAllow (mccAllowText codes) = mccCodes codes.
Proof.
  intros Hne. unfold parseMccAllow, mccAllowText, mccCodes.
  rewrite split_join.
  - rewrite List.map_map. clear Hne.
    induction codes as [|c codes IH]; [done|]. simpl.
    by rewrite Number_String_of_int, IH.
  - by destruct codes.
  - apply Forall_forall. intros tok Htok.
    apply list_elem_of_In, in_map_iff in Htok as (c & <- & _).
    apply numeral_no_comma.
Qed.

(** Binary64 holds an integer code below 2^53 exactly, and its text is its
    decimal numeral. *)
Lemma Number_toString_code (c : N) :
  (c < 2 ^ 53)%N ->
  Number_toString (of_Z (Z.of_N c)) = Some (String_of_int (Z.of_N c)).
Proof.
  intros Hc. unfold Number_toString, of_Z.
  assert (Qred (inject_Z (Z.of_N c)) = inject_Z (Z.of_N c)) as ->
    by (apply Qcanon.Qred_identity; simpl; apply Z.gcd_1_r).
  cbn [inject_Z Qden Qnum]. rewrite Pos.eqb_refl.
  assert ((Z.abs (Z.of_N c) <? 2 ^ 53)%Z = true) as -> by (apply Z.ltb_lt; lia).
  done.
Qed.

Lemma numbersToStrings_codes (codes : list N) :
  Forall (fun c => (c < 2 ^ 53)%N) codes ->
  numbersToStrings (mccCodes codes)
  = Some (List.map (fun c => String_of_int (Z.of_N c)) codes).
Proof.
  induction 1 as [|c codes Hc Hall IH]; [done|].
  cbn [mccCodes List.map numbersToStrings].
  rewrite (Number_toString_code c Hc).
  unfold mccCodes in IH. by rewrite IH.
Qed.

(** From 2^53 on the text of an integer is not written here. *)
Example Number_toString_beyond_exact : Number_toString (of_Z (2 ^ 60)) = None.
Proof. reflexivity. Qed.

(** The text the field shows for an allowlist of such codes. *)
Lemma shown_text_of_codes (codes : list N) (d : Policy.t) :
  Forall (fun c => (c < 2 ^ 53)%N) codes ->
  Policy.mccAllow d = Some (mccCodes codes) ->
  mccAllowShown d = Some (mccAllowText codes).
Proof.
  intros Hall Hd. unfold mccAllowShown. rewrite Hd.
  by rewrite (numbersToStrings_codes codes Hall).
Qed.

(** X17: for a draft whose allowlist is one or more non-negative integer
    codes below 2^53, the field shows their decimal numerals joined by
    commas, that text parses to the same allowlist, and typing it back
    leaves the draft as it is. *)
Theorem mcc_shown_text_round_trip (codes : list N) (d : Policy.t) :
  codes <> [] ->
  Forall (fun c => (c < 2 ^ 53)%N) codes ->
  Policy.mccAllow d = Some (mccCodes codes) ->
  mccAllowShown d = Some (mccAllowText codes) /\
  parseMccAllow (mccAllowText codes) = mccCodes codes /\
  onChange (ChangeMccAllow (mccAllowText codes)) d = d.
Proof.
  intros Hne Hall Hd. split; [by apply shown_text_of_codes|].
  split; [by apply parse_shown_text|].
  simpl. rewrite (parse_shown_text codes Hne), <- Hd. by destruct d.
Qed.

Lemma mcc_shown_text_round_trip_witness :
  mccAllowShown initialDraft = Some (mccAllowText [5541; 5542]%N) /\
  parseMccAllow (mccAllowText [5541; 5542]%N) = mccCodes [5541; 5542]%N /\
  onChange (ChangeMccAllow (mccAllowText [5541; 5542]%N)) initialDraft = initialDraft.
Proof.
  apply mcc_shown_text_round_trip;
    [discriminate | repeat constructor | reflexivity].
Defined.

(** X18: for such a draft, a comma typed at the end of the shown text does
    not stay a trailing comma: the allowlist gets the entry 0 at its end,
    and the field then shows the previous text followed by ",0". *)
Theorem mcc_trailing_comma_shows_zero (codes : list N) (d : Policy.t) :
  codes <> [] ->
  Forall (fun c => (c < 2 ^ 53)%N) codes ->
  Policy.mccAllow d = Some (mccCodes codes) ->
  mccAllowShown d = Some (mccAllowText codes) /\
  Policy.mccAllow (onChange (ChangeMccAllow (mccAllowText codes ++ [44%N])) d)
  = Some (mccCodes (codes ++ [0%N])) /\
  mccAllowShown (onChange (ChangeMccAllow (mccAllowText codes ++ [44%N])) d)
  = Some (mccAllowText codes ++ lit ",0").
Proof.
  intros Hne Hall Hd. split; [by apply shown_text_of_codes|].
  assert (parseMccAllow (mccAllowText codes ++ [44%N]) = mccCodes (codes ++ [0%N]))
    as Hparse.
  { rewrite parseMccAllow_app, parseMccAllow_empty, (parse_shown_text codes Hne).
    unfold mccCodes. by rewrite List.map_app. }
  split; [simpl; by rewrite Hparse|].
  rewrite (shown_text_of_codes (codes ++ [0%N])).
  - f_equal. unfold mccAllowText. rewrite List.map_app.
    cbn [List.map]. rewrite join_snoc; [done|]. by destruct codes.
  - apply Forall_app. split; [done|]. by repeat constructor.
  - simpl. by rewrite Hparse.
Qed.

Lemma mcc_trailing_comma_shows_zero_witness :
  mccAllowShown initialDraft = Some (mccAllowText [5541; 5542]%N) /\
  Policy.mccAllow
    (onChange (ChangeMccAllow (mccAllowText [5541; 5542]%N ++ [44%N])) initialDraft)
  = Some (mccCodes ([5541; 5542] ++ [0])%N) /\
  mccAllowShown
    (onChange (ChangeMccAllow (mccAllowText [5541; 5542]%N ++ [44%N])) initialDraft)
  = Some (mccAllowText [5541; 5542]%N ++ lit ",0").
Proof.
  apply mcc_trailing_comma_shows_zero;
    [discriminate | repeat constructor | reflexivity].
Defined.

(** ** The fleet snapshot *)

Section SortHead.
Context {A : Type} (compareFn : A -> A -> number).

Lemma insertSorted_head (x : A) (l : list A) :
  head (JsArray.insertSorted compareFn x l)
  = Some match head l with
         | Some y => if gt (compareFn x y) (of_Z 0) then y else x
         | None => x
         end.
Proof.
  destruct l as [|y l]; [done|].
  cbn [JsArray.insertSorted head]. by destruct (gt (compareFn x y) (of_Z 0)).
Qed.

(** The first element of a sorted copy, from the first element of the
    sorted copy of the tail. *)
Lemma sort_head_cons (x : A) (l : list A) :
  head (JsArray.sort compareFn (x :: l))
  = Some match head (JsArray.sort compareFn l) with
         | Some y => if gt (compareFn x y) (of_Z 0) then y else x
         | None => x
         end.
Proof. simpl. apply insertSorted_head. Qed.

Lemma sort_head_elem (l : list A) (y : A) :
  head (JsArray.sort compareFn l) = Some y -> y ∈ l.
Proof.
  revert y. induction l as [|x l IH]; intros y; [simpl; discriminate|].
  rewrite sort_head_cons. intros Heq. apply (inj Some) in Heq. subst y.
  destruct (head (JsArray.sort compareFn l)) as [z|] eqn:Hz;
    [|apply list_elem_of_here].
  destruct (gt (compareFn x z) (of_Z 0));
    [apply list_elem_of_further; by apply IH | apply list_elem_of_here].
Qed.
End SortHead.

(** On finite amounts the comparator is positive exactly when its first
    argument spent less. *)
Lemma bySpendTodayDesc_positive (a b : Vehicle.t) (qa qb : Q) :
  Vehicle.spendToday a = Finite qa -> Vehicle.spendToday b = Finite qb ->
  gt (bySpendTodayDesc a b) (of_Z 0)
  = lt (Vehicle.spendToday a) (Vehicle.spendToday b).
Proof.
  intros Ha Hb. unfold bySpendTodayDesc, gt. rewrite Ha, Hb. simpl. f_equal.
  apply eq_iff_eq_true. rewrite !Qle_bool_iff. unfold inject_Z. split; lra.
Qed.

Lemma sort_head_first_maximum (vehicles : list Vehicle.t) (i : nat)
    (v : Vehicle.t) :
  Forall (fun w => exists q, Vehicle.spendToday w = Finite q) vehicles ->
  vehicles !! i = Some v ->
  (forall j w, (j < i)%nat -> vehicles !! j = Some w ->
     lt (Vehicle.spendToday w) (Vehicle.spendToday v) = true) ->
  (forall w, w ∈ vehicles ->
     lt (Vehicle.spendToday v) (Vehicle.spendToday w) = false) ->
  head (JsArray.sort bySpendTodayDesc vehicles) = Some v.
Proof.
  revert i. induction vehicles as [|x l IH]; intros i Hfin Hi Hbefore Hmax; [done|].
  apply Forall_cons in Hfin as [[qx Hqx] Hfin].
  rewrite sort_head_cons. f_equal. destruct i as [|i]; simpl in Hi.
  - injection Hi as ->.
    destruct (head (JsArray.sort bySpendTodayDesc l)) as [y|] eqn:Hy; [|done].
    apply sort_head_elem in Hy.
    destruct (proj1 (Forall_forall _ _) Hfin y Hy) as [qy Hqy].
    rewrite (bySpendTodayDesc_positive v y qx qy Hqx Hqy).
    rewrite Hmax; [done|]. by apply list_elem_of_further.
  - rewrite (IH i Hfin Hi).
    + destruct (proj1 (Forall_forall _ _) Hfin v) as [qv Hqv];
        [apply list_elem_of_lookup; by exists i|].
      rewrite (bySpendTodayDesc_positive x v qx qv Hqx Hqv).
      rewrite (Hbefore 0%nat x); [done | lia | done].
    + intros j w Hj Hw. apply (Hbefore (S j) w); [lia | done].
    + intros w Hw. apply Hmax. by apply list_elem_of_further.
Qed.

(** X19: with no vehicle the tile shows a dash; with vehicles whose spend of
    today is finite it shows the plate of the vehicle that spent most today,
    and of the first such vehicle in the list when several spent as much. *)
Theorem topSpendPlate_first_maximum :
  topSpendPlate [] = [8212%N] /\
  forall (vehicles : list Vehicle.t) (i : nat) (v : Vehicle.t),
    Forall (fun w => exists q, Vehicle.spendToday w = Finite q) vehicles ->
    vehicles !! i = Some v ->
    (forall j w, (j < i)%nat -> vehicles !! j = Some w ->
       lt (Vehicle.spendToday w) (Vehicle.spendToday v) = true) ->
    (forall w, w ∈ vehicles ->
       lt (Vehicle.spendToday v) (Vehicle.spendToday w) = false) ->
    topSpendPlate vehicles = Vehicle.plate v.
Proof.
  split; [done|]. intros vehicles i v Hfin Hi Hbefore Hmax.
  pose proof (sort_head_first_maximum vehicles i v Hfin Hi Hbefore Hmax) as H.
  unfold topSpendPlate. destruct vehicles as [|x l]; [done|].
  by destruct (JsArray.sort bySpendTodayDesc (x :: l)); simplify_eq/=.
Qed.

Lemma topSpendPlate_first_maximum_witness :
  topSpendPlate mockVehicles = lit "PLK 908 LP".
Proof.
  refine (proj2 topSpendPlate_first_maximum mockVehicles 3%nat
            (Vehicle.mk (lit "V-104") (lit "PLK 908 LP") (lit "T. Mokoena")
               (Finite (-239045 # 10000)) (Finite (294689 # 10000))
               (of_Z 1800) (of_Z 9500) (of_Z 32000)) _ _ _ _).
  - repeat constructor; by eexists.
  - reflexivity.
  - intros j w Hj Hw.
    destruct j as [|[|[|j]]]; [| | |lia]; injection Hw as <-; reflexivity.
  - intros w Hw. apply list_elem_of_In in Hw. simpl in Hw.
    destruct Hw as [<-|[<-|[<-|[<-|[]]]]]; reflexivity.
Defined.

(** ** The root state over any sequence of events *)

Lemma run_snoc (t0 t1 t2 : JsString) (events : list AppEvent) (e : AppEvent)
    (s : AppState) :
  run t0 t1 t2 (events ++ [e]) s = step t0 t1 t2 (run t0 t1 t2 events s) e.
Proof. unfold run. by rewrite fold_left_app. Qed.

(** A property of the initial state kept by every step holds after any
    sequence of events. *)
Lemma run_invariant (t0 t1 t2 : JsString) (P : AppState -> Prop) :
  P initialState ->
  (forall s e, P s -> P (step t0 t1 t2 s e)) ->
  forall events, P (run t0 t1 t2 events initialState).
Proof.
  intros Hinit Hstep events.
  induction events as [|e events IH] using rev_ind; [done|].
  rewrite run_snoc. by apply Hstep.
Qed.

Lemma handleSavePolicy_Forall (P : Policy.t -> Prop) (p : Policy.t)
    (prev : list Policy.t) :
  P p -> Forall P prev -> Forall P (handleSavePolicy p prev).
Proof.
  intros Hp Hprev.
  destruct (handleSavePolicy_cases p prev) as [[-> _]|(i & x & -> & _)].
  - by constructor.
  - by apply Forall_insert.
Qed.

(** X20: whatever the sequence of fetches, saves, triage clicks and tab or
    window choices since the first render, the stored policies have pairwise
    distinct ids and none has the placeholder id "new". *)
Theorem stored_policy_ids_stay_distinct (t0 t1 t2 : JsString)
    (events : list AppEvent) :
  NoDup (List.map Policy.id (policies (run t0 t1 t2 events initialState))) /\
  Forall (fun p => Policy.id p <> lit "new")
    (policies (run t0 t1 t2 events initialState)).
Proof.
  apply (run_invariant t0 t1 t2
           (fun s => NoDup (List.map Policy.id (policies s)) /\
                     Forall (fun p => Policy.id p <> lit "new") (policies s))).
  - split; constructor.
  - intros s e [Hnd Hnew]. destruct e; simpl; try done.
    + split; [apply (bool_decide_unpack _); vm_compute; reflexivity|].
      repeat constructor; vm_compute; discriminate.
    + split; [by apply handleSavePolicy_NoDup|].
      apply handleSavePolicy_Forall; [apply save_id_not_new | done].
Qed.

Lemma handleExceptionAction_erased (id : JsString) (action : Action)
    (prev : list ExceptionItem.t) :
  List.map (ExceptionItem.with_status Open) (handleExceptionAction id action prev)
  = List.map (ExceptionItem.with_status Open) prev.
Proof.
  unfold handleExceptionAction. rewrite List.map_map. apply List.map_ext.
  intros e. by destruct (str_eqb (ExceptionItem.id e) id).
Qed.

(** X21: whatever the sequence of events since the first render, the
    vehicles are none or the mock vehicles, and the exceptions are none or
    the mock exceptions in their order, each with all its fields except
    possibly the status: triage adds, removes, reorders and edits nothing. *)
Theorem exceptions_stay_the_fetched_ones (t0 t1 t2 : JsString)
    (events : list AppEvent) :
  (vehicles (run t0 t1 t2 events initialState) = [] \/
   vehicles (run t0 t1 t2 events initialState) = mockVehicles) /\
  (exceptions (run t0 t1 t2 events initialState) = [] \/
   List.map (ExceptionItem.with_status Open)
     (exceptions (run t0 t1 t2 events initialState))
   = mockExceptions t0 t1 t2).
Proof.
  apply (run_invariant t0 t1 t2
           (fun s => (vehicles s = [] \/ vehicles s = mockVehicles) /\
                     (exceptions s = [] \/
                      List.map (ExceptionItem.with_status Open) (exceptions s)
                      = mockExceptions t0 t1 t2))).
  - split; by left.
  - intros s e [Hv He]. destruct e; simpl; try done.
    + split; [by right | done].
    + split; [done | by right].
    + split; [done|]. destruct He as [->|He]; [by left | right].
      by rewrite handleExceptionAction_erased.
Qed.
